(** * bluenotebooks: the DNS notebook (notebooks/dns.ipynb)

    A shallow embedding of the code cells of the notebook that hunts
    command-and-control channels over DNS: the line and field splitting of
    the Zeek log, the [shannon_entropy] function and the aggregation loop
    that fills the [queries] dictionary.

    Conventions of the embedding.
    - A Python [str] is a [list ascii]; [lit] turns a Rocq string literal
      into one.
    - A Python [dict] is a [gmap]; the inner dictionaries with the fixed keys
      ["count"], ["subdomains"], ["entropy"] are records.
    - A Python [int] that only counts is a [nat].
    - A Python [float] is read as the real number it stands for: the
      arithmetic of [shannon_entropy] is exact arithmetic on [R], rounding is
      not modelled.
    - Exceptions are values of [exn]; code that may raise lives in the
      monad [res]. *)

From Stdlib Require Import Reals Lra Ascii String.
From stdpp Require Import gmap strings list fin_maps.

Local Open Scope list_scope.

(* ----------------------------------------------------------------------- *)
(** ** Exceptions *)

Inductive exn : Type :=
  | IndexError
  | KeyError
  | ZeroDivisionError
  | ValueError.

Inductive res (A : Type) : Type :=
  | Ok (a : A)
  | Raise (e : exn).

Arguments Ok {A} a.
Arguments Raise {A} e.

#[global] Instance res_ret : MRet res := fun A a => Ok a.
#[global] Instance res_bind : MBind res := fun A B f m =>
  match m with
  | Ok a => f a
  | Raise e => Raise e
  end.

(** A [for] loop whose body may raise and that threads the variables the
    body assigns. *)
Fixpoint for_each {A S : Type} (body : S -> A -> res S) (s : S) (l : list A)
  : res S :=
  match l with
  | [] => Ok s
  | x :: l' => s' ← body s x; for_each body s' l'
  end.

(* ----------------------------------------------------------------------- *)
(** ** Python strings *)

Abbreviation str := (list ascii).

Definition lit (s : string) : str := list_ascii_of_string s.

(** [s.startswith(prefix)] *)
Fixpoint startswith (s prefix : str) : bool :=
  match prefix, s with
  | [], _ => true
  | _ :: _, [] => false
  | p :: prefix', c :: s' => bool_decide (c = p) && startswith s' prefix'
  end.

(** [s.split(sep)] for a separator of one character, which is how the
    notebook calls it (newline, tab and dot). *)
Fixpoint split (sep : ascii) (s : str) : list str :=
  match s with
  | [] => [[]]
  | c :: s' =>
      if bool_decide (c = sep) then [] :: split sep s'
      else match split sep s' with
           | [] => [[c]]
           | field :: fields => (c :: field) :: fields
           end
  end.

(** [sep.join(parts)] *)
Fixpoint join (sep : str) (parts : list str) : str :=
  match parts with
  | [] => []
  | [p] => p
  | p :: parts' => p ++ sep ++ join sep parts'
  end.

(** The scan of [s.replace(old, new)] for a non-empty [old]: [skip] counts
    the characters of a match that are still to be passed over. *)
Fixpoint replace_scan (old new : str) (skip : nat) (s : str) : str :=
  match s with
  | [] => []
  | c :: s' =>
      match skip with
      | S k => replace_scan old new k s'
      | O =>
          if startswith s old
          then new ++ replace_scan old new (length old - 1) s'
          else c :: replace_scan old new 0 s'
      end
  end.

(** [s.replace(old, new)]: every non-overlapping occurrence of [old], from
    the left, becomes [new]; an empty [old] matches before every character
    and at the end. *)
Definition replace (s old new : str) : str :=
  match old with
  | [] => new ++ concat (map (fun c => c :: new) s)
  | _ :: _ => replace_scan old new 0 s
  end.

(** [l[-n:]] *)
Definition slice_last {A : Type} (n : nat) (l : list A) : list A :=
  drop (length l - n) l.

(** [l[:-n]] for [n > 0] *)
Definition slice_but_last {A : Type} (n : nat) (l : list A) : list A :=
  take (length l - n) l.

(** [l[i]] *)
Definition getitem {A : Type} (l : list A) (i : nat) : res A :=
  match l !! i with
  | Some x => Ok x
  | None => Raise IndexError
  end.

(** [d[k]] *)
Definition dict_get `{Countable K} {V : Type} (d : gmap K V) (k : K) : res V :=
  match d !! k with
  | Some v => Ok v
  | None => Raise KeyError
  end.

(** [x in l] for a list *)
Definition contains (l : list str) (x : str) : bool := bool_decide (x ∈ l).

(* ----------------------------------------------------------------------- *)
(** ** [collections.Counter] and [math.log] *)

(** One update [counts[c] += 1] of a counter; a new key goes to the end, as
    in a Python dictionary. *)
Fixpoint Counter_incr (c : ascii) (counts : list (ascii * nat))
  : list (ascii * nat) :=
  match counts with
  | [] => [(c, 1)]
  | (k, n) :: counts' =>
      if bool_decide (k = c) then (k, S n) :: counts'
      else (k, n) :: Counter_incr c counts'
  end.

(** [Counter(data)]: the characters in the order they first appear, each
    with its number of occurrences. *)
Definition Counter (data : str) : list (ascii * nat) :=
  fold_left (fun counts c => Counter_incr c counts) data [].

(** [counts.values()] *)
Definition values (counts : list (ascii * nat)) : list nat := map snd counts.

(** [a / b] on two [int]s *)
Definition true_div (a b : nat) : res R :=
  if decide (b = 0) then Raise ZeroDivisionError
  else Ok (INR a / INR b)%R.

(** [math.log(x, base)] *)
Definition math_log (x base : R) : res R :=
  if Rlt_dec 0 x then
    if Rlt_dec 0 base then
      if Req_dec_T base 1 then Raise ZeroDivisionError
      else Ok (ln x / ln base)%R
    else Raise ValueError
  else Raise ValueError.

(** The body of the loop of [shannon_entropy]. *)
Definition entropy_step (length : nat) (entropy : R) (count : nat) : res R :=
  p_x ← true_div count length;
  l ← math_log p_x 2;
  Ok (entropy + - p_x * l)%R.

Definition shannon_entropy (data : str) : res R :=
  match data with
  | [] => Ok 0%R
  | _ :: _ =>
      let length := length data in
      let counts := Counter data in
      for_each (entropy_step length) 0%R (values counts)
  end.

(* ----------------------------------------------------------------------- *)
(** ** The [queries] dictionary and the aggregation loop *)

(** [queries[domain]["subdomains"][subdomain]]: the keys ["count"] and
    ["entropy"]. *)
Record SubdomainAggregate : Type := {
  sub_count : nat;
  entropy : R
}.

(** [queries[domain]]: the keys ["count"] and ["subdomains"]. *)
Record QueryAggregate : Type := {
  count : nat;
  subdomains : gmap str SubdomainAggregate
}.

Abbreviation Queries := (gmap str QueryAggregate).

Definition tab : ascii := "009"%char.
Definition newline : ascii := "010"%char.

(** The list of domain names to ignore that the notebook ships. *)
Definition safelist : list str :=
  [lit "_tcp.local"; lit "_udp.local"; lit "windowsupdate.com";
   lit "msedge.net"; lit "googlevideo.com"; lit "youtube.com";
   lit "microsoft.com"; lit "ubuntu.com"; lit "msn.com"].

(** [".".join(query.split(".")[-2:])] *)
Definition domain_of (query : str) : str :=
  join (lit ".") (slice_last 2 (split "."%char query)).

(** [query.replace(domain, "")[:-1]] *)
Definition subdomain_of (query domain : str) : str :=
  slice_but_last 1 (replace query domain []).

(** [if domain not in queries.keys(): queries[domain] = {...}] *)
Definition init_domain (domain : str) (queries : Queries) : Queries :=
  match queries !! domain with
  | Some _ => queries
  | None => <[domain := {| count := 0; subdomains := ∅ |}]> queries
  end.

(** [if subdomain not in queries[domain]["subdomains"].keys(): ...] *)
Definition init_subdomain (domain subdomain : str) (queries : Queries)
  : res Queries :=
  qa ← dict_get queries domain;
  match subdomains qa !! subdomain with
  | Some _ => Ok queries
  | None =>
      e ← shannon_entropy subdomain;
      Ok (<[domain := {| count := count qa;
                         subdomains :=
                           <[subdomain := {| sub_count := 0; entropy := e |}]>
                             (subdomains qa) |}]> queries)
  end.

(** [queries[domain]["count"] += 1] *)
Definition incr_domain (domain : str) (queries : Queries) : res Queries :=
  qa ← dict_get queries domain;
  Ok (<[domain := {| count := count qa + 1;
                     subdomains := subdomains qa |}]> queries).

(** [queries[domain]["subdomains"][subdomain]["count"] += 1] *)
Definition incr_subdomain (domain subdomain : str) (queries : Queries)
  : res Queries :=
  qa ← dict_get queries domain;
  sa ← dict_get (subdomains qa) subdomain;
  Ok (<[domain := {| count := count qa;
                     subdomains :=
                       <[subdomain := {| sub_count := sub_count sa + 1;
                                         entropy := entropy sa |}]>
                         (subdomains qa) |}]> queries).

(** The body of the loop over [rows]. *)
Definition process_row (safelist : list str) (queries : Queries) (row : str)
  : res Queries :=
  if startswith row (lit "#") then Ok queries
  else
    let splitted_line := split tab row in
    if length splitted_line <? 24 then Ok queries
    else
      query ← getitem splitted_line 9;
      let domain := domain_of query in
      if contains safelist domain || contains safelist query then Ok queries
      else
        domain_entropy ← shannon_entropy domain;
        let subdomain := subdomain_of query domain in
        let queries := init_domain domain queries in
        queries ← init_subdomain domain subdomain queries;
        queries ← incr_domain domain queries;
        incr_subdomain domain subdomain queries.

(** [queries = {}] followed by the loop. *)
Definition aggregate_rows (safelist : list str) (rows : list str)
  : res Queries :=
  for_each (process_row safelist) ∅ rows.

(** The aggregator on the text of a log: [rows = log.split("\n")], then the
    loop. *)
Definition aggregate (safelist : list str) (log : str) : res Queries :=
  aggregate_rows safelist (split newline log).

(** The global variables of the notebook that the aggregation cell reads and
    writes. *)
Record Globals : Type := {
  rows : list str;
  queries : Queries
}.

(** One run of the aggregation cell: it rebinds [queries] to a new
    dictionary before the loop, whatever the variable held. *)
Definition run_cell (safelist : list str) (g : Globals) : res Globals :=
  q ← aggregate_rows safelist (rows g);
  Ok {| rows := rows g; queries := q |}.

(* ----------------------------------------------------------------------- *)
(** ** What the specification calls things *)

(** A line that the loop drops before it looks at the query. *)
Definition is_skipped (row : str) : bool :=
  startswith row (lit "#") || (length (split tab row) <? 24).

(** Field 9 of a line. *)
Definition query_of (row : str) : str := nth 9 (split tab row) [].

(** The safelist test on a query. *)
Definition is_safelisted (safelist : list str) (query : str) : bool :=
  contains safelist (domain_of query) || contains safelist query.

(** The number of times [c] occurs in [data]. *)
Fixpoint occurrences (c : ascii) (data : str) : nat :=
  match data with
  | [] => 0
  | x :: data' => (if bool_decide (x = c) then 1 else 0) + occurrences c data'
  end.

Definition log2 (x : R) : R := (ln x / ln 2)%R.

Definition sum_R (l : list R) : R := foldr Rplus 0%R l.

(** The empirical frequency of [c] in [data]. *)
Definition frequency (data : str) (c : ascii) : R :=
  (INR (occurrences c data) / INR (length data))%R.

(** The entropy as the specification writes it: minus the sum, over the
    distinct characters of the string, of [p(c) * log2 (p(c))]. *)
Definition entropy_formula (data : str) : R :=
  (- sum_R (map (fun c => frequency data c * log2 (frequency data c))
              (remove_dups data)))%R.

(** The sum of the [count] fields of the subdomain entries of a domain. *)
Definition subdomain_total (subs : gmap str SubdomainAggregate) : nat :=
  map_fold (fun _ sa total => sub_count sa + total) 0 subs.

(* ----------------------------------------------------------------------- *)
(** ** Auxiliary notions of the proofs *)

(** [counts.keys()] *)
Definition keys (counts : list (ascii * nat)) : list ascii := map fst counts.

(** [counts[c]], with 0 for a missing key as a [Counter] has it. *)
Fixpoint get (c : ascii) (counts : list (ascii * nat)) : nat :=
  match counts with
  | [] => 0
  | (k, n) :: counts' => if bool_decide (k = c) then n else get c counts'
  end.

(** What one turn of the loop adds for a character that occurs [n] times
    in a string of [len] characters. *)
Definition entropy_term (len n : nat) : R :=
  (- (INR n / INR len) * log2 (INR n / INR len))%R.

(* ----------------------------------------------------------------------- *)
(** ** One turn of the aggregation loop, in closed form *)

Definition new_domain : QueryAggregate := {| count := 0; subdomains := ∅ |}.

Definition new_subdomain (subdomain : str) : SubdomainAggregate :=
  {| sub_count := 0; entropy := entropy_formula subdomain |}.

(** What counting one query under [domain] and [subdomain] does to the
    dictionary. *)
Definition record_query (queries : Queries) (domain subdomain : str) : Queries :=
  let qa := default new_domain (queries !! domain) in
  let sa := default (new_subdomain subdomain) (subdomains qa !! subdomain) in
  <[domain := {| count := count qa + 1;
                 subdomains :=
                   <[subdomain := {| sub_count := sub_count sa + 1;
                                     entropy := entropy sa |}]>
                     (subdomains qa) |}]> queries.

(** What one turn of the loop does to the dictionary. *)
Definition step (safelist : list str) (queries : Queries) (row : str) : Queries :=
  if is_skipped row || is_safelisted safelist (query_of row) then queries
  else
    let query := query_of row in
    record_query queries (domain_of query) (subdomain_of query (domain_of query)).

(** Every domain's [count] is the sum of the counts of its subdomains. *)
Definition counts_consistent (queries : Queries) : Prop :=
  forall domain qa,
    queries !! domain = Some qa -> count qa = subdomain_total (subdomains qa).

(** Every stored [entropy] is the entropy of the key it is stored under. *)
Definition entropies_consistent (queries : Queries) : Prop :=
  forall domain qa subdomain sa,
    queries !! domain = Some qa -> subdomains qa !! subdomain = Some sa ->
    shannon_entropy subdomain = Ok (entropy sa).

(** No entry of the safelist is a domain key. *)
Definition domains_not_safelisted (safelist : list str) (queries : Queries)
  : Prop :=
  forall domain, domain ∈ safelist -> queries !! domain = None.

(* ----------------------------------------------------------------------- *)
(** ** Sample log lines *)

(** A data line of 24 fields whose field 9 is [query]; the other fields
    hold a dash, as unset Zeek fields do. *)
Definition data_line (query : str) : str :=
  join [tab] (replicate 9 (lit "-") ++ query :: replicate 14 (lit "-")).

(** A Zeek header line. *)
Definition header_line : str := lit "#separator \x09".

(** A line cut short: three fields only. *)
Definition short_line : str := join [tab] [lit "1700000000.0"; lit "C1"; lit "10.0.0.1"].

(* ----------------------------------------------------------------------- *)
(** ** The tables of the visualization cells *)

(** [d.items()]. The pairs come in the order of the keys of the map, where
    Python has the order of insertion; nothing below depends on the order. *)
Definition items `{Countable K} {V : Type} (d : gmap K V) : list (K * V) :=
  map_to_list d.

(** One element of [data]: the keys ["Domain"], ["Unique Subdomains"] and
    ["Times looked up"]. *)
Record DomainRow : Type := {
  Domain : str;
  Unique_Subdomains : nat;
  Times_looked_up : nat
}.

(** [data = [{...} for x in queries.items()]] *)
Definition data (queries : Queries) : list DomainRow :=
  map (fun x => {| Domain := fst x;
                   Unique_Subdomains := length (map fst (items (subdomains (snd x))));
                   Times_looked_up := count (snd x) |})
    (items queries).

(** One element of [subdomain_data]: the keys ["Domain"], ["Subdomain"],
    ["Times looked up"] and ["Entropy"]. *)
Record SubdomainRow : Type := {
  sub_Domain : str;
  Subdomain : str;
  sub_Times_looked_up : nat;
  Entropy : R
}.

(** The two nested loops that append to [subdomain_data]. *)
Definition subdomain_data (queries : Queries) : list SubdomainRow :=
  foldl (fun subdomain_data domain =>
           foldl (fun subdomain_data subdomain =>
                    subdomain_data
                    ++ [{| sub_Domain := fst domain;
                           Subdomain := fst subdomain;
                           sub_Times_looked_up := sub_count (snd subdomain);
                           Entropy := entropy (snd subdomain) |}])
             subdomain_data (items (subdomains (snd domain))))
    [] (items queries).

(* ----------------------------------------------------------------------- *)
(** ** Counting the lines of a log *)

(** A line that the loop counts. *)
Definition is_counted (safelist : list str) (row : str) : bool :=
  negb (is_skipped row || is_safelisted safelist (query_of row)).

(** The domain and the subdomain that the loop derives from a line. *)
Definition row_domain (row : str) : str := domain_of (query_of row).

Definition row_subdomain (row : str) : str :=
  subdomain_of (query_of row) (domain_of (query_of row)).

(** The number of counted lines with a given domain. *)
Definition hits (safelist : list str) (rows : list str) (domain : str) : nat :=
  length (List.filter
            (fun row => is_counted safelist row
                        && bool_decide (row_domain row = domain)) rows).

(** The number of counted lines with a given domain and subdomain. *)
Definition sub_hits (safelist : list str) (rows : list str)
    (domain subdomain : str) : nat :=
  length (List.filter
            (fun row => is_counted safelist row
                        && bool_decide (row_domain row = domain)
                        && bool_decide (row_subdomain row = subdomain)) rows).

(** The dictionary holds exactly the counts of the lines [rows]: a domain is
    a key when some counted line has it, its [count] is the number of these
    lines, and the same for the subdomains under it. *)
Definition counts_lines (safelist : list str) (rows : list str)
    (queries : Queries) : Prop :=
  (forall domain,
      (queries !! domain = None <-> hits safelist rows domain = 0) /\
      from_option count 0 (queries !! domain) = hits safelist rows domain) /\
  (forall domain subdomain,
      (queries !! domain ≫= fun qa => subdomains qa !! subdomain)
      = if sub_hits safelist rows domain subdomain =? 0 then None
        else Some {| sub_count := sub_hits safelist rows domain subdomain;
                     entropy := entropy_formula subdomain |}).

(** The sum of the [count] fields of all the domains. *)
Definition total_count (queries : Queries) : nat :=
  sum_list_with (fun x => count (snd x)) (items queries).

(** The first position at which [old] occurs in [s], if there is one. *)
Fixpoint find (s old : str) : option nat :=
  if startswith s old then Some 0
  else match s with
       | [] => None
       | _ :: s' => S <$> find s' old
       end.

(* ----------------------------------------------------------------------- *)
(** ** The string functions on examples *)

Example split_example :
  split "."%char (lit "a.b.example.com") = [lit "a"; lit "b"; lit "example"; lit "com"].
Proof. reflexivity. Qed.

Example replace_example :
  replace (lit "a.b.example.com") (lit "example.com") [] = lit "a.b.".
Proof. reflexivity. Qed.

Example replace_empty :
  replace (lit "abc") [] (lit "-") = lit "-a-b-c-".
Proof. reflexivity. Qed.

Example Counter_example :
  Counter (lit "abca") = [("a"%char, 2); ("b"%char, 1); ("c"%char, 1)].
Proof. reflexivity. Qed.

Example domain_of_example :
  domain_of (lit "a.b.example.com") = lit "example.com".
Proof. reflexivity. Qed.

Example subdomain_of_example :
  subdomain_of (lit "a.b.example.com") (lit "example.com") = lit "a.b".
Proof. reflexivity. Qed.

(* ----------------------------------------------------------------------- *)
(** ** The monad and the loops *)

Lemma bind_Ok {A B : Type} (f : A -> res B) (a : A) : (Ok a ≫= f) = f a.
Proof. reflexivity. Qed.

(* ----------------------------------------------------------------------- *)
(** ** [Counter] *)

Section counter.

Lemma keys_Counter_incr c counts :
  keys (Counter_incr c counts)
  = if bool_decide (c ∈ keys counts) then keys counts else keys counts ++ [c].
Proof.
  induction counts as [|[k n] counts IH]; [done|].
  cbn [Counter_incr keys map fst].
  destruct (decide (k = c)) as [->|Hk].
  - rewrite (bool_decide_eq_true_2 (c = c)) by done. cbn [map fst].
    rewrite bool_decide_eq_true_2; [done | left].
  - rewrite (bool_decide_eq_false_2 (k = c)) by done. cbn [map fst].
    fold (keys (Counter_incr c counts)). rewrite IH.
    fold (keys counts).
    destruct (decide (c ∈ keys counts)) as [Hin|Hin].
    + rewrite !bool_decide_eq_true_2; [done | by right | done].
    + rewrite !bool_decide_eq_false_2; [done | | done].
      intros Hc. apply elem_of_cons in Hc as [->|Hc]; [done | by apply Hin].
Qed.

Lemma get_Counter_incr c c' counts :
  get c' (Counter_incr c counts)
  = if bool_decide (c = c') then S (get c counts) else get c' counts.
Proof.
  induction counts as [|[k n] counts IH]; cbn [Counter_incr get].
  - by case_bool_decide.
  - destruct (decide (k = c)) as [->|Hk].
    + rewrite (bool_decide_eq_true_2 (c = c)) by done. cbn [get].
      by case_bool_decide.
    + rewrite (bool_decide_eq_false_2 (k = c)) by done. cbn [get].
      rewrite IH. repeat case_bool_decide; congruence.
Qed.

Lemma Counter_snoc data c : Counter (data ++ [c]) = Counter_incr c (Counter data).
Proof. unfold Counter. by rewrite fold_left_app. Qed.

Lemma occurrences_app c d1 d2 :
  occurrences c (d1 ++ d2) = occurrences c d1 + occurrences c d2.
Proof. induction d1 as [|x d1 IH]; simpl; [done | rewrite IH; lia]. Qed.

Lemma occurrences_pos c data : c ∈ data ↔ 0 < occurrences c data.
Proof.
  induction data as [|x data IH]; simpl.
  - split; [intros H; by apply not_elem_of_nil in H | lia].
  - rewrite elem_of_cons, IH. case_bool_decide; split; intros; try lia; auto.
    destruct H0; [congruence | lia].
Qed.

Lemma occurrences_le c data : occurrences c data <= length data.
Proof. induction data; simpl; [lia | case_bool_decide; lia]. Qed.

Lemma get_Counter c data : get c (Counter data) = occurrences c data.
Proof.
  induction data as [|x data IH] using rev_ind; [done|].
  rewrite Counter_snoc, get_Counter_incr, occurrences_app. simpl.
  case_bool_decide; subst; lia.
Qed.

Lemma keys_Counter_NoDup data : NoDup (keys (Counter data)).
Proof.
  induction data as [|x data IH] using rev_ind; [constructor|].
  rewrite Counter_snoc, keys_Counter_incr.
  case_bool_decide as Hin; [done|].
  apply NoDup_app. split_and!; [done | | apply NoDup_singleton].
  intros y Hy Hy'. apply list_elem_of_singleton in Hy' as ->. done.
Qed.

Lemma keys_Counter_elem c data : c ∈ keys (Counter data) ↔ c ∈ data.
Proof.
  induction data as [|x data IH] using rev_ind; [done|].
  rewrite Counter_snoc, keys_Counter_incr, elem_of_app, list_elem_of_singleton.
  case_bool_decide as Hin.
  - rewrite IH. split; [auto|]. intros [H| ->]; [done | by apply IH].
  - by rewrite elem_of_app, list_elem_of_singleton, IH.
Qed.

Lemma values_get counts :
  NoDup (keys counts) ->
  values counts = map (fun k => get k counts) (keys counts).
Proof.
  unfold values, keys.
  induction counts as [|[k n] counts IH]; cbn [map fst snd get]; [done|].
  intros Hnd. apply NoDup_cons in Hnd as [Hk Hnd].
  rewrite bool_decide_eq_true_2; [|done]. f_equal.
  rewrite IH; [|done].
  apply map_ext_in. intros a Ha. apply list_elem_of_In in Ha.
  rewrite bool_decide_eq_false_2; [done|]. by intros ->.
Qed.

Lemma values_Counter data :
  values (Counter data)
  = map (fun k => occurrences k data) (keys (Counter data)).
Proof.
  rewrite values_get by apply keys_Counter_NoDup.
  apply map_ext. intros k. apply get_Counter.
Qed.

Lemma keys_Counter_perm data : keys (Counter data) ≡ₚ remove_dups data.
Proof.
  apply NoDup_Permutation.
  - apply keys_Counter_NoDup.
  - apply NoDup_remove_dups.
  - intros c. by rewrite keys_Counter_elem, elem_of_remove_dups.
Qed.

End counter.

(* ----------------------------------------------------------------------- *)
(** ** The entropy *)

Section entropy.

Local Open Scope R_scope.

Lemma math_log_2 p : 0 < p -> math_log p 2 = Ok (log2 p).
Proof.
  intros Hp. unfold math_log.
  destruct (Rlt_dec 0 p) as [_|Hn]; [|done].
  destruct (Rlt_dec 0 2) as [_|Hn]; [|exfalso; lra].
  destruct (Req_dec_T 2 1) as [He|_]; [exfalso; lra | done].
Qed.

Lemma INR_ratio_pos n len : (0 < n)%nat -> (0 < len)%nat -> 0 < INR n / INR len.
Proof.
  intros Hn Hl. apply Rdiv_lt_0_compat; apply lt_0_INR; lia.
Qed.

Lemma entropy_step_ok len acc n :
  (0 < len)%nat -> (0 < n)%nat ->
  entropy_step len acc n = Ok (acc + entropy_term len n).
Proof.
  intros Hl Hn. unfold entropy_step, true_div.
  destruct (decide (len = 0%nat)) as [->|_]; [lia|].
  rewrite bind_Ok, math_log_2 by (by apply INR_ratio_pos).
  by rewrite bind_Ok.
Qed.

Lemma entropy_loop len vals acc :
  (0 < len)%nat -> (forall n, In n vals -> (0 < n)%nat) ->
  for_each (entropy_step len) acc vals
  = Ok (acc + sum_R (map (entropy_term len) vals)).
Proof.
  intros Hl. revert acc.
  induction vals as [|n vals IH]; intros acc Hpos; cbn [for_each map sum_R foldr].
  - f_equal. lra.
  - rewrite entropy_step_ok by (auto using in_eq).
    rewrite bind_Ok, IH by (intros; apply Hpos; by right).
    f_equal. fold (sum_R (map (entropy_term len) vals)). lra.
Qed.

Lemma sum_R_perm l l' : l ≡ₚ l' -> sum_R l = sum_R l'.
Proof.
  induction 1 as [|x l l' _ IH|x y l|l l' l'' _ IH1 _ IH2];
    unfold sum_R in *; cbn [foldr]; [done | by rewrite IH | lra | congruence].
Qed.

Lemma sum_R_opp {A : Type} (f : A -> R) l :
  sum_R (map (fun x => - f x) l) = - sum_R (map f l).
Proof.
  unfold sum_R. induction l as [|x l IH]; cbn [foldr map]; [lra | rewrite IH; lra].
Qed.

Lemma sum_R_const {A : Type} (f : A -> R) (t : R) (l : list A) :
  (forall x, In x l -> f x = t) -> sum_R (map f l) = INR (length l) * t.
Proof.
  induction l as [|x l IH]; intros Hf.
  - cbn. lra.
  - cbn [map sum_R foldr]. fold (sum_R (map f l)).
    rewrite IH by (intros; apply Hf; by right).
    rewrite (Hf x) by apply in_eq.
    change (length (x :: l)) with (S (length l)). rewrite S_INR. lra.
Qed.

Lemma entropy_term_frequency data c :
  entropy_term (length data) (occurrences c data)
  = - (frequency data c * log2 (frequency data c)).
Proof. unfold entropy_term, frequency. lra. Qed.

Lemma shannon_entropy_formula data :
  shannon_entropy data = Ok (entropy_formula data).
Proof.
  destruct data as [|c0 d].
  - cbn [shannon_entropy]. f_equal. unfold entropy_formula, sum_R. cbn. lra.
  - remember (c0 :: d) as data eqn:Hdata.
    assert (shannon_entropy data
            = for_each (entropy_step (length data)) 0 (values (Counter data)))
      as -> by (by subst data).
    assert ((0 < length data)%nat) as Hlen by (subst data; cbn; lia).
    rewrite values_Counter, entropy_loop; [| done |].
    + f_equal. rewrite map_map. unfold entropy_formula.
      rewrite (sum_R_perm _ (map (fun x => entropy_term (length data) (occurrences x data))
                               (remove_dups data))).
      * rewrite <- sum_R_opp, Rplus_0_l. f_equal.
        apply map_ext. intros a. apply entropy_term_frequency.
      * apply Permutation_map, keys_Counter_perm.
    + intros n Hn. apply in_map_iff in Hn as (k & <- & Hk).
      apply (proj2 (list_elem_of_In _ _)) in Hk.
      apply (proj1 (keys_Counter_elem _ _)) in Hk.
      by apply occurrences_pos.
Qed.

End entropy.

Section loop.

Implicit Types (queries : Queries) (row query domain subdomain : str).

Lemma getitem_nth {A : Type} (l : list A) (i : nat) (d : A) :
  i < length l -> getitem l i = Ok (nth i l d).
Proof.
  intros Hi. unfold getitem.
  destruct (lookup_lt_is_Some_2 l i Hi) as [x Hx]. rewrite Hx.
  f_equal. symmetry. by apply nth_lookup_Some.
Qed.

Lemma count_query_eq queries domain subdomain :
  (init_subdomain domain subdomain (init_domain domain queries)
     ≫= fun queries1 => incr_domain domain queries1
     ≫= fun queries2 => incr_subdomain domain subdomain queries2)
  = Ok (record_query queries domain subdomain).
Proof.
  unfold record_query, init_domain, init_subdomain, incr_domain,
    incr_subdomain, dict_get.
  destruct (queries !! domain) as [qa|] eqn:Hd;
    cbn [from_option]; unfold Datatypes.id.
  - rewrite Hd, bind_Ok.
    destruct (subdomains qa !! subdomain) as [sa|] eqn:Hs;
      cbn [from_option]; unfold Datatypes.id.
    + rewrite bind_Ok, Hd, !bind_Ok, lookup_insert_eq, bind_Ok.
      cbn [count subdomains]. rewrite Hs, bind_Ok.
      by rewrite insert_insert_eq.
    + rewrite shannon_entropy_formula, !bind_Ok, lookup_insert_eq, !bind_Ok.
      rewrite lookup_insert_eq, bind_Ok. cbn [count subdomains].
      rewrite lookup_insert_eq, bind_Ok.
      by rewrite !insert_insert_eq.
  - rewrite lookup_insert_eq, bind_Ok. cbn [new_domain subdomains count].
    rewrite lookup_empty, shannon_entropy_formula, !bind_Ok.
    cbn [from_option]; unfold Datatypes.id.
    rewrite lookup_insert_eq, !bind_Ok, lookup_insert_eq, bind_Ok.
    cbn [count subdomains]. rewrite lookup_insert_eq, bind_Ok.
    by rewrite !insert_insert_eq.
Qed.

Lemma process_row_step safelist queries row :
  process_row safelist queries row = Ok (step safelist queries row).
Proof.
  unfold process_row, step, is_skipped, is_safelisted, query_of.
  destruct (startswith row (lit "#")); [done|]. cbn [orb].
  destruct (length (split tab row) <? 24) eqn:Hlen; [done|].
  apply Nat.ltb_ge in Hlen. cbn [orb].
  rewrite (getitem_nth _ _ []) by lia. rewrite bind_Ok.
  set (query := nth 9 (split tab row) []).
  destruct (contains safelist (domain_of query) || contains safelist query);
    [done|].
  rewrite shannon_entropy_formula, bind_Ok.
  apply count_query_eq.
Qed.

Lemma for_each_process_row safelist rows queries :
  for_each (process_row safelist) queries rows
  = Ok (foldl (step safelist) queries rows).
Proof.
  revert queries. induction rows as [|row rows IH]; intros queries; [done|].
  cbn [for_each foldl]. by rewrite process_row_step, bind_Ok.
Qed.

Lemma aggregate_rows_foldl safelist rows :
  aggregate_rows safelist rows = Ok (foldl (step safelist) ∅ rows).
Proof. apply for_each_process_row. Qed.

End loop.

(* ----------------------------------------------------------------------- *)
(** ** Splitting and joining *)

Section strings.

Implicit Types (s p : str) (sep : ascii).

Lemma split_nonempty sep s : split sep s <> [].
Proof.
  destruct s as [|c s]; cbn [split]; [done|].
  case_bool_decide; [done|]. by destruct (split sep s).
Qed.

Lemma split_no_sep sep s : sep ∉ s -> split sep s = [s].
Proof.
  induction s as [|c s IH]; intros Hs; cbn [split]; [done|].
  apply not_elem_of_cons in Hs as [Hc Hs].
  rewrite bool_decide_eq_false_2 by congruence.
  by rewrite IH.
Qed.

Lemma split_fields sep s : Forall (fun field => sep ∉ field) (split sep s).
Proof.
  induction s as [|c s IH]; cbn [split].
  - repeat constructor. apply not_elem_of_nil.
  - case_bool_decide as Hc.
    + constructor; [apply not_elem_of_nil | done].
    + destruct (split sep s) as [|field fields].
      * repeat constructor. rewrite list_elem_of_singleton. congruence.
      * apply Forall_cons in IH as [Hf Hfs]. constructor; [|done].
        rewrite not_elem_of_cons. split; [congruence | done].
Qed.

Lemma split_app_sep sep p s :
  sep ∉ p -> split sep (p ++ sep :: s) = p :: split sep s.
Proof.
  induction p as [|c p IH]; intros Hp.
  - cbn [app split]. by rewrite bool_decide_eq_true_2.
  - apply not_elem_of_cons in Hp as [Hc Hp].
    cbn [app split]. rewrite bool_decide_eq_false_2 by congruence.
    by rewrite IH.
Qed.

Lemma split_join sep (parts : list str) :
  parts <> [] -> Forall (fun p => sep ∉ p) parts ->
  split sep (join [sep] parts) = parts.
Proof.
  induction parts as [|p parts IH]; [done|]. intros _ Hparts.
  apply Forall_cons in Hparts as [Hp Hparts].
  destruct parts as [|p' parts].
  - by apply split_no_sep.
  - change (join [sep] (p :: p' :: parts))
      with (p ++ sep :: join [sep] (p' :: parts)).
    rewrite split_app_sep by done. f_equal. by apply IH.
Qed.

Lemma join_split sep s : join [sep] (split sep s) = s.
Proof.
  induction s as [|c s IH]; [done|]. cbn [split].
  case_bool_decide as Hc.
  - subst c. pose proof (split_nonempty sep s) as Hne.
    destruct (split sep s) as [|field fields]; [done|].
    change (join [sep] ([] :: field :: fields))
      with (sep :: join [sep] (field :: fields)).
    by rewrite IH.
  - pose proof (split_nonempty sep s) as Hne.
    destruct (split sep s) as [|field fields]; [done|].
    destruct fields as [|field' fields].
    + cbn [join] in *. by rewrite IH.
    + change (join [sep] ((c :: field) :: field' :: fields))
        with (c :: join [sep] (field :: field' :: fields)).
      by rewrite IH.
Qed.

Lemma replace_scan_skip (old new : str) (skip : nat) s :
  length s <= skip -> replace_scan old new skip s = [].
Proof.
  revert skip. induction s as [|c s IH]; intros skip Hlen; [done|].
  cbn [length] in Hlen. destruct skip as [|skip]; [lia|].
  cbn [replace_scan]. apply IH. lia.
Qed.

Lemma startswith_refl s : startswith s s = true.
Proof.
  induction s as [|c s IH]; [done|]. cbn [startswith].
  by rewrite bool_decide_eq_true_2, IH.
Qed.

Lemma replace_self s : replace s s [] = [].
Proof.
  destruct s as [|c s]; [done|].
  cbn [replace replace_scan]. rewrite startswith_refl. cbn [app].
  apply replace_scan_skip. cbn [length]. lia.
Qed.

Lemma domain_of_no_dot query : "."%char ∉ query -> domain_of query = query.
Proof. intros Hq. unfold domain_of. by rewrite split_no_sep. Qed.

Lemma subdomain_of_self query : subdomain_of query query = [].
Proof. unfold subdomain_of. by rewrite replace_self. Qed.

End strings.

(* ----------------------------------------------------------------------- *)
(** ** Invariants of the dictionary *)

Section invariants.

Implicit Types (queries : Queries) (row query domain subdomain : str).

Lemma subdomain_total_empty : subdomain_total ∅ = 0.
Proof. apply map_fold_empty. Qed.

Lemma subdomain_total_insert (subs : gmap str SubdomainAggregate) subdomain sa :
  subdomain_total (<[subdomain := sa]> subs)
    + from_option sub_count 0 (subs !! subdomain)
  = sub_count sa + subdomain_total subs.
Proof.
  unfold subdomain_total.
  destruct (subs !! subdomain) as [old|] eqn:Hs; cbn [from_option].
  - rewrite <- insert_delete_eq.
    rewrite map_fold_insert_L;
      [| intros; lia | apply lookup_delete_eq].
    rewrite (map_fold_delete_L _ _ subdomain old subs); [lia | intros; lia | done].
  - rewrite map_fold_insert_L; [lia | intros; lia | done].
Qed.

Lemma record_query_lookup queries domain subdomain :
  record_query queries domain subdomain !! domain
  = Some {| count := count (default new_domain (queries !! domain)) + 1;
            subdomains :=
              <[subdomain :=
                  {| sub_count :=
                       sub_count
                         (default (new_subdomain subdomain)
                            (subdomains (default new_domain (queries !! domain))
                               !! subdomain)) + 1;
                     entropy :=
                       entropy
                         (default (new_subdomain subdomain)
                            (subdomains (default new_domain (queries !! domain))
                               !! subdomain)) |}]>
                (subdomains (default new_domain (queries !! domain))) |}.
Proof. unfold record_query. by rewrite lookup_insert_eq. Qed.

Lemma record_query_lookup_ne queries domain subdomain domain' :
  domain <> domain' ->
  record_query queries domain subdomain !! domain' = queries !! domain'.
Proof. intros Hne. unfold record_query. by rewrite lookup_insert_ne. Qed.

Lemma record_query_counts queries domain subdomain :
  counts_consistent queries ->
  counts_consistent (record_query queries domain subdomain).
Proof.
  intros Hinv d qa Hd.
  destruct (decide (domain = d)) as [<-|Hne].
  - rewrite record_query_lookup in Hd. injection Hd as <-.
    cbn [count subdomains].
    pose proof (subdomain_total_insert
      (subdomains (default new_domain (queries !! domain))) subdomain
      {| sub_count :=
           sub_count
             (default (new_subdomain subdomain)
                (subdomains (default new_domain (queries !! domain))
                   !! subdomain)) + 1;
         entropy :=
           entropy
             (default (new_subdomain subdomain)
                (subdomains (default new_domain (queries !! domain))
                   !! subdomain)) |}) as Hsum.
    cbn [sub_count] in Hsum.
    assert (count (default new_domain (queries !! domain))
            = subdomain_total
                (subdomains (default new_domain (queries !! domain)))) as Hold.
    { destruct (queries !! domain) as [qa|] eqn:Hq; cbn [from_option];
        unfold Datatypes.id; [by apply (Hinv domain) |].
      cbn [new_domain count subdomains]. by rewrite subdomain_total_empty. }
    destruct (subdomains (default new_domain (queries !! domain)) !! subdomain)
      as [sa|]; cbn [from_option new_subdomain sub_count] in Hsum |- *;
      unfold Datatypes.id in *; lia.
  - rewrite record_query_lookup_ne in Hd by done. by apply (Hinv d).
Qed.

Lemma record_query_entropies queries domain subdomain :
  entropies_consistent queries ->
  entropies_consistent (record_query queries domain subdomain).
Proof.
  intros Hinv d qa s sa Hd Hs.
  destruct (decide (domain = d)) as [<-|Hne].
  - rewrite record_query_lookup in Hd. injection Hd as <-.
    cbn [subdomains] in Hs.
    destruct (decide (subdomain = s)) as [<-|Hns].
    + rewrite lookup_insert_eq in Hs. injection Hs as <-. cbn [entropy].
      destruct (queries !! domain) as [qa|] eqn:Hq; cbn [from_option];
        unfold Datatypes.id.
      * destruct (subdomains qa !! subdomain) as [sa|] eqn:Hsa;
          cbn [from_option]; unfold Datatypes.id.
        -- by apply (Hinv domain qa).
        -- apply shannon_entropy_formula.
      * cbn [new_domain subdomains]. rewrite lookup_empty.
        apply shannon_entropy_formula.
    + rewrite lookup_insert_ne in Hs by done.
      destruct (queries !! domain) as [qa|] eqn:Hq; cbn [from_option] in Hs;
        unfold Datatypes.id in Hs.
      * by apply (Hinv domain qa).
      * cbn [new_domain subdomains] in Hs. by rewrite lookup_empty in Hs.
  - rewrite record_query_lookup_ne in Hd by done. by apply (Hinv d qa).
Qed.

Lemma step_counts safelist queries row :
  counts_consistent queries -> counts_consistent (step safelist queries row).
Proof.
  intros Hinv. unfold step.
  destruct (is_skipped row || is_safelisted safelist (query_of row));
    [done | by apply record_query_counts].
Qed.

Lemma step_entropies safelist queries row :
  entropies_consistent queries ->
  entropies_consistent (step safelist queries row).
Proof.
  intros Hinv. unfold step.
  destruct (is_skipped row || is_safelisted safelist (query_of row));
    [done | by apply record_query_entropies].
Qed.

Lemma step_domains safelist queries row :
  domains_not_safelisted safelist queries ->
  domains_not_safelisted safelist (step safelist queries row).
Proof.
  intros Hinv. unfold step.
  destruct (is_skipped row) eqn:Hskip; [done|]. cbn [orb].
  destruct (is_safelisted safelist (query_of row)) eqn:Hsafe; [done|].
  intros d Hd. unfold is_safelisted in Hsafe.
  apply orb_false_iff in Hsafe as [Hdom _].
  unfold contains in Hdom. apply bool_decide_eq_false in Hdom.
  rewrite record_query_lookup_ne; [by apply Hinv | by intros <-].
Qed.

Lemma foldl_step_invariant (P : Queries -> Prop) safelist rows queries :
  (forall queries row, P queries -> P (step safelist queries row)) ->
  P queries -> P (foldl (step safelist) queries rows).
Proof.
  intros Hstep. revert queries.
  induction rows as [|row rows IH]; intros queries HP; [done|].
  cbn [foldl]. by apply IH, Hstep.
Qed.

Lemma foldl_step_filter safelist (keep : str -> bool) rows queries :
  (forall row, keep row = false -> is_skipped row = true) ->
  foldl (step safelist) queries (List.filter keep rows)
  = foldl (step safelist) queries rows.
Proof.
  intros Hkeep. revert queries.
  induction rows as [|row rows IH]; intros queries; [done|].
  cbn [List.filter foldl]. destruct (keep row) eqn:Hk.
  - cbn [foldl]. apply IH.
  - rewrite IH. unfold step at 3. by rewrite (Hkeep row Hk).
Qed.

End invariants.

Section single_row.

Lemma step_empty_row safelist queries : step safelist queries [] = queries.
Proof. reflexivity. Qed.

Lemma query_of_lookup row query :
  split tab row !! 9 = Some query -> query_of row = query.
Proof. intros H. unfold query_of. by apply nth_lookup_Some. Qed.

Lemma is_skipped_false row :
  startswith row (lit "#") = false -> 24 <= length (split tab row) ->
  is_skipped row = false.
Proof.
  intros Hs Hl. unfold is_skipped. rewrite Hs. cbn [orb].
  by apply Nat.ltb_ge.
Qed.

Lemma record_query_empty domain subdomain :
  record_query ∅ domain subdomain
  = {[ domain :=
         {| count := 1;
            subdomains :=
              {[ subdomain :=
                   {| sub_count := 1;
                      entropy := entropy_formula subdomain |} ]} |} ]}.
Proof.
  unfold record_query. rewrite lookup_empty. cbn [from_option].
  unfold Datatypes.id. cbn [new_domain subdomains count].
  rewrite lookup_empty. cbn [from_option]. unfold Datatypes.id.
  cbn [new_subdomain sub_count entropy]. by rewrite !insert_empty.
Qed.

(** A log of one counted line, with or without the newline that ends it. *)
Lemma aggregate_single_row safelist row (tail : str) :
  newline ∉ row -> tail = [] \/ tail = [newline] ->
  is_skipped row = false ->
  is_safelisted safelist (query_of row) = false ->
  aggregate safelist (row ++ tail)
  = Ok (record_query ∅ (domain_of (query_of row))
          (subdomain_of (query_of row) (domain_of (query_of row)))).
Proof.
  intros Hnl Htail Hskip Hsafe. unfold aggregate.
  rewrite aggregate_rows_foldl. f_equal.
  destruct Htail as [-> | ->].
  - rewrite app_nil_r, split_no_sep by done. cbn [foldl].
    unfold step. by rewrite Hskip, Hsafe.
  - rewrite split_app_sep by done. cbn [split foldl].
    rewrite step_empty_row. unfold step. by rewrite Hskip, Hsafe.
Qed.

Lemma aggregate_single_row_eq safelist row query domain subdomain :
  bool_decide (newline ∈ row) = false ->
  is_skipped row = false ->
  query_of row = query ->
  is_safelisted safelist query = false ->
  domain_of query = domain ->
  subdomain_of query domain = subdomain ->
  aggregate safelist row
  = Ok {[ domain :=
            {| count := 1;
               subdomains :=
                 {[ subdomain :=
                      {| sub_count := 1;
                         entropy := entropy_formula subdomain |} ]} |} ]}.
Proof.
  intros Hnl Hskip Hq Hsafe Hd Hs.
  apply bool_decide_eq_false in Hnl.
  pose proof (aggregate_single_row safelist row [] Hnl (or_introl eq_refl) Hskip)
    as Hone.
  rewrite app_nil_r, Hq, Hd, Hs in Hone. rewrite Hone by done.
  by rewrite record_query_empty.
Qed.

Lemma aggregate_mail_line :
  aggregate [] (data_line (lit "mail.example.com"))
  = Ok {[ lit "example.com" :=
            {| count := 1;
               subdomains :=
                 {[ lit "mail" :=
                      {| sub_count := 1;
                         entropy := entropy_formula (lit "mail") |} ]} |} ]}.
Proof.
  by apply (aggregate_single_row_eq _ _ (lit "mail.example.com")).
Qed.

End single_row.

(* ----------------------------------------------------------------------- *)
(** ** The properties of the specification *)

(** C1. For every log text and safelist the aggregator returns a mapping in
    which the [count] of each domain is the sum of the [count] fields of
    all the subdomain entries of that domain. *)
Theorem domain_count_is_sum_of_subdomain_counts (safelist : list str) (log : str) :
  exists result : Queries,
    aggregate safelist log = Ok result /\
    forall domain qa,
      result !! domain = Some qa ->
      count qa = subdomain_total (subdomains qa).
Proof.
  exists (foldl (step safelist) ∅ (split newline log)).
  split; [apply aggregate_rows_foldl|].
  apply (foldl_step_invariant counts_consistent).
  - intros queries row. apply step_counts.
  - intros domain qa Hd. by rewrite lookup_empty in Hd.
Qed.

Lemma domain_count_is_sum_witness :
  exists result : Queries,
    aggregate [] (data_line (lit "mail.example.com")) = Ok result /\
    result !! lit "example.com"
    = Some {| count := 1;
              subdomains :=
                {[ lit "mail" :=
                     {| sub_count := 1;
                        entropy := entropy_formula (lit "mail") |} ]} |} /\
    1 = subdomain_total
          {[ lit "mail" :=
               {| sub_count := 1; entropy := entropy_formula (lit "mail") |} ]}.
Proof.
  destruct (domain_count_is_sum_of_subdomain_counts []
              (data_line (lit "mail.example.com"))) as (result & Hres & Hsum).
  exists result. split; [exact Hres|].
  pose proof aggregate_mail_line as Hone. rewrite Hres in Hone.
  injection Hone as ->.
  split; [apply lookup_singleton_eq|].
  apply (Hsum (lit "example.com") _ (lookup_singleton_eq _ _)).
Defined.

(** C5. The aggregation pass is total: for every text and every safelist it
    returns a mapping and raises nothing; so does every turn of the loop,
    whatever field 9 holds, and [shannon_entropy] on every string; a line of
    fewer than 24 fields leaves the dictionary as it is. *)
Theorem aggregate_total :
  (forall (safelist : list str) (log : str),
      exists result : Queries, aggregate safelist log = Ok result) /\
  (forall (safelist : list str) (queries : Queries) (row : str),
      exists queries' : Queries, process_row safelist queries row = Ok queries') /\
  (forall data : str, exists e : R, shannon_entropy data = Ok e) /\
  (forall (safelist : list str) (queries : Queries) (row : str),
      length (split tab row) < 24 ->
      process_row safelist queries row = Ok queries).
Proof.
  split_and!.
  - intros safelist log. eexists. apply aggregate_rows_foldl.
  - intros safelist queries row. eexists. apply process_row_step.
  - intros data. eexists. apply shannon_entropy_formula.
  - intros safelist queries row Hlen. rewrite process_row_step. f_equal.
    unfold step, is_skipped. apply Nat.ltb_lt in Hlen. rewrite Hlen.
    by rewrite orb_true_r.
Qed.

Lemma aggregate_total_witness :
  length (split tab short_line) < 24 /\
  process_row safelist ∅ short_line = Ok ∅.
Proof.
  split; [vm_compute; lia|].
  apply (proj2 (proj2 (proj2 aggregate_total))). vm_compute; lia.
Defined.

(** C8. The aggregator is deterministic: two runs of the cell on the same
    rows and the same safelist end with the same [queries], whatever the
    variable held before each run, and a second run changes nothing. *)
Theorem run_cell_deterministic (safelist : list str) (g1 g2 : Globals) :
  rows g1 = rows g2 ->
  exists result : Queries,
    run_cell safelist g1 = Ok {| rows := rows g1; queries := result |} /\
    run_cell safelist g2 = Ok {| rows := rows g2; queries := result |} /\
    run_cell safelist {| rows := rows g1; queries := result |}
    = Ok {| rows := rows g1; queries := result |} /\
    aggregate_rows safelist (rows g1) = Ok result.
Proof.
  intros Hrows. exists (foldl (step safelist) ∅ (rows g1)).
  unfold run_cell. cbn [rows]. rewrite <- Hrows.
  rewrite aggregate_rows_foldl. by rewrite bind_Ok.
Qed.

Lemma run_cell_deterministic_witness :
  exists result : Queries,
    run_cell safelist {| rows := [data_line (lit "x1.evil.io")]; queries := ∅ |}
    = Ok {| rows := [data_line (lit "x1.evil.io")]; queries := result |} /\
    run_cell safelist {| rows := [data_line (lit "x1.evil.io")];
                         queries := {[ lit "stale.example" := new_domain ]} |}
    = Ok {| rows := [data_line (lit "x1.evil.io")]; queries := result |}.
Proof.
  destruct (run_cell_deterministic safelist
              {| rows := [data_line (lit "x1.evil.io")]; queries := ∅ |}
              {| rows := [data_line (lit "x1.evil.io")];
                 queries := {[ lit "stale.example" := new_domain ]} |}
              eq_refl) as (result & H1 & H2 & _).
  exists result. split; [exact H1 | exact H2].
Defined.

(** C6. Lines that start with [#] and lines of fewer than 24 tab-separated
    fields contribute nothing: deleting any of them from the text of the log
    leaves the result of the aggregator the same. [delete] chooses the lines
    to delete, all of them lines that the loop drops. *)
Theorem skipped_lines_contribute_nothing
    (safelist : list str) (log : str) (delete : str -> bool) :
  (forall row,
      delete row = true ->
      startswith row (lit "#") = true \/ length (split tab row) < 24) ->
  aggregate safelist
    (join [newline]
       (List.filter (fun row => negb (delete row)) (split newline log)))
  = aggregate safelist log.
Proof.
  intros Hdelete.
  assert (forall row, negb (delete row) = false -> is_skipped row = true) as Hkeep.
  { intros row Hrow. apply negb_false_iff in Hrow. unfold is_skipped.
    destruct (Hdelete row Hrow) as [-> | Hlt]; [done|].
    apply Nat.ltb_lt in Hlt. rewrite Hlt. apply orb_true_r. }
  unfold aggregate at 2. rewrite aggregate_rows_foldl.
  rewrite <- (foldl_step_filter safelist _ _ _ Hkeep).
  unfold aggregate. rewrite aggregate_rows_foldl. f_equal.
  destruct (List.filter (fun row => negb (delete row)) (split newline log))
    as [|row rows] eqn:Hrows.
  - reflexivity.
  - rewrite <- Hrows. rewrite split_join; [done | by rewrite Hrows |].
    apply Forall_forall. intros r Hr.
    apply list_elem_of_In, filter_In in Hr as [Hr _].
    apply list_elem_of_In in Hr.
    by apply (proj1 (Forall_forall _ _) (split_fields newline log)).
Qed.

Lemma skipped_lines_contribute_nothing_witness :
  aggregate safelist (data_line (lit "x1.evil.io"))
  = aggregate safelist
      (header_line ++ newline :: data_line (lit "x1.evil.io")
         ++ newline :: short_line).
Proof.
  pose proof (skipped_lines_contribute_nothing safelist
    (header_line ++ newline :: data_line (lit "x1.evil.io")
       ++ newline :: short_line)
    is_skipped) as H.
  assert (join [newline]
            (List.filter (fun row => negb (is_skipped row))
               (split newline
                  (header_line ++ newline :: data_line (lit "x1.evil.io")
                     ++ newline :: short_line)))
          = data_line (lit "x1.evil.io")) as Hlog by (vm_compute; reflexivity).
  rewrite Hlog in H. apply H.
  intros row Hrow. unfold is_skipped in Hrow.
  apply orb_true_iff in Hrow as [Hrow | Hrow]; [by left | right].
  by apply Nat.ltb_lt.
Defined.

(** C7. In every result mapping the [entropy] stored under a domain and a
    subdomain key is the value of [shannon_entropy] on that key; and a turn
    of the loop leaves the [entropy] of every entry that is already there as
    it is. *)
Theorem entropy_is_of_subdomain_key :
  (forall (safelist : list str) (log : str),
      exists result : Queries,
        aggregate safelist log = Ok result /\
        forall domain qa subdomain sa,
          result !! domain = Some qa ->
          subdomains qa !! subdomain = Some sa ->
          shannon_entropy subdomain = Ok (entropy sa)) /\
  (forall (safelist : list str) (queries : Queries) (row : str)
          domain qa subdomain sa,
      queries !! domain = Some qa ->
      subdomains qa !! subdomain = Some sa ->
      exists queries' qa' sa',
        process_row safelist queries row = Ok queries' /\
        queries' !! domain = Some qa' /\
        subdomains qa' !! subdomain = Some sa' /\
        entropy sa' = entropy sa).
Proof.
  split.
  - intros safelist log.
    exists (foldl (step safelist) ∅ (split newline log)).
    split; [apply aggregate_rows_foldl|].
    apply (foldl_step_invariant entropies_consistent).
    + intros queries row. apply step_entropies.
    + intros domain qa subdomain sa Hd. by rewrite lookup_empty in Hd.
  - intros safelist queries row domain qa subdomain sa Hd Hs.
    rewrite process_row_step. unfold step.
    destruct (is_skipped row || is_safelisted safelist (query_of row)).
    { by exists queries, qa, sa. }
    set (d := domain_of (query_of row)).
    set (s := subdomain_of (query_of row) d).
    clearbody s. clearbody d.
    destruct (decide (d = domain)) as [->|Hdd].
    + eexists _, _. rewrite record_query_lookup, Hd.
      cbn [from_option]. unfold Datatypes.id.
      destruct (decide (s = subdomain)) as [->|Hss].
      * eexists. split_and!; [done | done | |].
        -- cbn [subdomains]. apply lookup_insert_eq.
        -- rewrite Hs. reflexivity.
      * exists sa. split_and!; [done | done | | done].
        cbn [subdomains]. by rewrite lookup_insert_ne.
    + exists (record_query queries d s), qa, sa.
      by rewrite record_query_lookup_ne.
Qed.

Lemma entropy_is_of_subdomain_key_witness :
  exists queries' qa' sa',
    process_row []
      {[ lit "example.com" :=
           {| count := 1;
              subdomains :=
                {[ lit "mail" := {| sub_count := 1; entropy := 2%R |} ]} |} ]}
      (data_line (lit "mail.example.com")) = Ok queries' /\
    queries' !! lit "example.com" = Some qa' /\
    subdomains qa' !! lit "mail" = Some sa' /\
    entropy sa' = 2%R.
Proof.
  apply (proj2 entropy_is_of_subdomain_key []
           {[ lit "example.com" :=
                {| count := 1;
                   subdomains :=
                     {[ lit "mail" := {| sub_count := 1; entropy := 2%R |} ]} |} ]}
           (data_line (lit "mail.example.com"))
           (lit "example.com")
           {| count := 1;
              subdomains :=
                {[ lit "mail" := {| sub_count := 1; entropy := 2%R |} ]} |}
           (lit "mail")
           {| sub_count := 1; entropy := 2%R |}).
  - apply lookup_singleton_eq.
  - apply lookup_singleton_eq.
Defined.

Section concrete_rows.

Lemma step_dropped safelist queries row :
  is_skipped row || is_safelisted safelist (query_of row) = true ->
  step safelist queries row = queries.
Proof. intros H. unfold step. by rewrite H. Qed.

Lemma step_counted safelist queries row query domain subdomain :
  is_skipped row = false ->
  query_of row = query ->
  is_safelisted safelist query = false ->
  domain_of query = domain ->
  subdomain_of query domain = subdomain ->
  step safelist queries row = record_query queries domain subdomain.
Proof.
  intros Hskip Hq Hsafe Hd Hs. unfold step.
  by rewrite Hskip, Hq, Hsafe, Hd, Hs.
Qed.

Lemma is_safelisted_true safelist query :
  domain_of query ∈ safelist \/ query ∈ safelist ->
  is_safelisted safelist query = true.
Proof.
  intros H. unfold is_safelisted, contains. apply orb_true_iff.
  destruct H; [left | right]; by apply bool_decide_eq_true.
Qed.

End concrete_rows.

(** C2, as the code has it. A record whose derived domain is in the safelist
    or whose query is an entry of the safelist contributes nothing to the
    result, and no entry of the safelist is a domain key of the result.
    (Subdomain keys are not compared with the safelist.) *)
Theorem safelisted_record_contributes_nothing :
  (forall (safelist : list str) (rows1 rows2 : list str) (row query : str),
      startswith row (lit "#") = false ->
      24 <= length (split tab row) ->
      split tab row !! 9 = Some query ->
      domain_of query ∈ safelist \/ query ∈ safelist ->
      (forall queries : Queries, process_row safelist queries row = Ok queries) /\
      aggregate_rows safelist (rows1 ++ row :: rows2)
      = aggregate_rows safelist (rows1 ++ rows2)) /\
  (forall (safelist : list str) (log : str),
      exists result : Queries,
        aggregate safelist log = Ok result /\
        forall key, key ∈ safelist -> result !! key = None).
Proof.
  split.
  - intros safelist rows1 rows2 row query Hhash Hlen Hq Hsafe.
    assert (forall queries, step safelist queries row = queries) as Hstep.
    { intros queries. apply step_dropped.
      rewrite (query_of_lookup _ _ Hq), (is_safelisted_true _ _ Hsafe).
      apply orb_true_r. }
    split.
    + intros queries. by rewrite process_row_step, Hstep.
    + rewrite !aggregate_rows_foldl, !foldl_app. cbn [foldl].
      by rewrite Hstep.
  - intros safelist log.
    exists (foldl (step safelist) ∅ (split newline log)).
    split; [apply aggregate_rows_foldl|].
    apply (foldl_step_invariant (domains_not_safelisted safelist)).
    + intros queries row. apply step_domains.
    + intros key _. apply lookup_empty.
Qed.

Lemma safelisted_record_contributes_nothing_witness :
  (forall queries : Queries,
      process_row safelist queries (data_line (lit "www.youtube.com"))
      = Ok queries) /\
  aggregate_rows safelist
    ([data_line (lit "x1.evil.io")] ++ data_line (lit "www.youtube.com")
       :: [data_line (lit "x2.evil.io")])
  = aggregate_rows safelist
      ([data_line (lit "x1.evil.io")] ++ [data_line (lit "x2.evil.io")]).
Proof.
  apply (proj1 safelisted_record_contributes_nothing safelist
           [data_line (lit "x1.evil.io")] [data_line (lit "x2.evil.io")]
           (data_line (lit "www.youtube.com")) (lit "www.youtube.com")).
  - reflexivity.
  - vm_compute. lia.
  - reflexivity.
  - left. apply (bool_decide_unpack _). by vm_compute.
Defined.

(** C2, as the specification has it, fails: with [example.com] in the
    safelist, a query for [www.example.com] is dropped, and yet the string
    [example.com] is a subdomain key of the result, under [evil.io], through
    the query [example.com.evil.io]. *)
Lemma safelisted_string_is_a_subdomain_key :
  let safelist := [lit "example.com"] in
  let log := data_line (lit "www.example.com")
             ++ newline :: data_line (lit "example.com.evil.io") in
  domain_of (lit "www.example.com") = lit "example.com" /\
  lit "example.com" ∈ safelist /\
  exists (result : Queries) (qa : QueryAggregate),
    aggregate safelist log = Ok result /\
    result !! lit "evil.io" = Some qa /\
    subdomains qa !! lit "example.com"
    = Some {| sub_count := 1; entropy := entropy_formula (lit "example.com") |}.
Proof.
  intros safelist log. split; [reflexivity|].
  split; [apply list_elem_of_singleton; reflexivity|].
  eexists _, _. unfold aggregate.
  assert (split newline log
          = [data_line (lit "www.example.com");
             data_line (lit "example.com.evil.io")]) as ->
    by (vm_compute; reflexivity).
  rewrite aggregate_rows_foldl. cbn [foldl].
  rewrite (step_dropped _ _ (data_line (lit "www.example.com")))
    by (vm_compute; reflexivity).
  rewrite (step_counted _ _ _ (lit "example.com.evil.io") (lit "evil.io")
             (lit "example.com"))
    by (vm_compute; reflexivity).
  rewrite record_query_empty.
  split; [reflexivity|].
  split; [apply lookup_singleton_eq|].
  cbn [subdomains]. apply lookup_singleton_eq.
Qed.

(** C9. A log of one data line of at least 24 tab-separated fields whose
    field 9 is [mail.example.com], aggregated with an empty safelist, gives
    exactly the domain key [example.com] with count 1, holding the single
    subdomain key [mail] with count 1 and the entropy that
    [shannon_entropy] returns on ["mail"]. The line may end with a newline
    or not. *)
Theorem single_mail_query (row tail : str) :
  newline ∉ row ->
  tail = [] \/ tail = [newline] ->
  startswith row (lit "#") = false ->
  24 <= length (split tab row) ->
  split tab row !! 9 = Some (lit "mail.example.com") ->
  exists e : R,
    shannon_entropy (lit "mail") = Ok e /\
    aggregate [] (row ++ tail)
    = Ok {[ lit "example.com" :=
              {| count := 1;
                 subdomains :=
                   {[ lit "mail" := {| sub_count := 1; entropy := e |} ]} |} ]}.
Proof.
  intros Hnl Htail Hhash Hlen Hq.
  exists (entropy_formula (lit "mail")).
  split; [apply shannon_entropy_formula|].
  apply query_of_lookup in Hq.
  rewrite aggregate_single_row;
    [| done | done | by apply is_skipped_false | by rewrite Hq].
  rewrite Hq.
  assert (domain_of (lit "mail.example.com") = lit "example.com") as ->
    by reflexivity.
  assert (subdomain_of (lit "mail.example.com") (lit "example.com") = lit "mail")
    as -> by reflexivity.
  by rewrite record_query_empty.
Qed.

Lemma single_mail_query_witness :
  exists e : R,
    shannon_entropy (lit "mail") = Ok e /\
    aggregate [] (data_line (lit "mail.example.com") ++ [newline])
    = Ok {[ lit "example.com" :=
              {| count := 1;
                 subdomains :=
                   {[ lit "mail" := {| sub_count := 1; entropy := e |} ]} |} ]}.
Proof.
  apply (single_mail_query (data_line (lit "mail.example.com")) [newline]).
  - apply (bool_decide_unpack _). by vm_compute.
  - right. reflexivity.
  - reflexivity.
  - vm_compute. lia.
  - reflexivity.
Defined.

(** C10. A data line of at least 24 fields whose field 9 holds no dot (it
    may be empty) and is not in the safelist: the derived domain is the
    whole query, the derived subdomain is the empty string, and the loop
    counts the record under that domain key with the subdomain key [""],
    whose entropy is 0. [rows] are the lines that the loop has seen
    before. *)
Theorem dotless_query_counted
    (safelist : list str) (rows : list str) (row query : str) :
  startswith row (lit "#") = false ->
  24 <= length (split tab row) ->
  split tab row !! 9 = Some query ->
  "."%char ∉ query ->
  query ∉ safelist ->
  domain_of query = query /\
  subdomain_of query (domain_of query) = [] /\
  shannon_entropy [] = Ok 0%R /\
  exists (before after : Queries) (qa : QueryAggregate) (sa : SubdomainAggregate),
    aggregate_rows safelist rows = Ok before /\
    aggregate_rows safelist (rows ++ [row]) = Ok after /\
    after !! query = Some qa /\
    count qa = from_option count 0 (before !! query) + 1 /\
    subdomains qa !! [] = Some sa /\
    sub_count sa
    = from_option sub_count 0
        (before !! query ≫= fun qa0 => subdomains qa0 !! []) + 1 /\
    entropy sa = 0%R.
Proof.
  intros Hhash Hlen Hq Hdot Hsafe.
  pose proof (domain_of_no_dot query Hdot) as Hdom.
  split; [done|]. rewrite Hdom.
  split; [apply subdomain_of_self|]. split; [done|].
  set (before := foldl (step safelist) ∅ rows).
  assert (entropies_consistent before) as Hinv.
  { apply (foldl_step_invariant entropies_consistent).
    - intros queries r. apply step_entropies.
    - intros d qa s sa Hd. by rewrite lookup_empty in Hd. }
  assert (step safelist before row = record_query before query []) as Hstep.
  { apply (step_counted _ _ _ query).
    - by apply is_skipped_false.
    - by apply query_of_lookup.
    - unfold is_safelisted, contains. rewrite Hdom.
      by rewrite bool_decide_eq_false_2.
    - done.
    - apply subdomain_of_self. }
  eexists before, _, _, _.
  split; [apply aggregate_rows_foldl|].
  split.
  { rewrite aggregate_rows_foldl, foldl_app. cbn [foldl].
    fold before. by rewrite Hstep. }
  split; [apply record_query_lookup|].
  cbn [count subdomains sub_count entropy].
  split_and!.
  - by destruct (before !! query).
  - apply lookup_insert_eq.
  - destruct (before !! query) as [qa0|]; cbn; [|by rewrite lookup_empty].
    by destruct (subdomains qa0 !! []).
  - destruct (before !! query) as [qa0|] eqn:Hb; cbn [from_option];
      unfold Datatypes.id.
    + destruct (subdomains qa0 !! []) as [sa0|] eqn:Hs; cbn [from_option];
        unfold Datatypes.id.
      * pose proof (Hinv query qa0 [] sa0 Hb Hs) as He.
        cbn [shannon_entropy] in He. by injection He.
      * pose proof (shannon_entropy_formula []) as He.
        cbn [shannon_entropy] in He. by injection He.
    + cbn [new_domain subdomains]. rewrite lookup_empty. cbn [from_option].
      pose proof (shannon_entropy_formula []) as He.
      cbn [shannon_entropy] in He. by injection He.
Qed.

Lemma dotless_query_counted_witness :
  domain_of (lit "localhost") = lit "localhost" /\
  subdomain_of (lit "localhost") (domain_of (lit "localhost")) = [] /\
  shannon_entropy [] = Ok 0%R /\
  exists (before after : Queries) (qa : QueryAggregate) (sa : SubdomainAggregate),
    aggregate_rows safelist [data_line (lit "localhost")] = Ok before /\
    aggregate_rows safelist
      ([data_line (lit "localhost")] ++ [data_line (lit "localhost")])
    = Ok after /\
    after !! lit "localhost" = Some qa /\
    count qa = from_option count 0 (before !! lit "localhost") + 1 /\
    subdomains qa !! [] = Some sa /\
    sub_count sa
    = from_option sub_count 0
        (before !! lit "localhost" ≫= fun qa0 => subdomains qa0 !! []) + 1 /\
    entropy sa = 0%R.
Proof.
  apply (dotless_query_counted safelist [data_line (lit "localhost")]
           (data_line (lit "localhost")) (lit "localhost")).
  - reflexivity.
  - vm_compute. lia.
  - reflexivity.
  - apply (bool_decide_unpack _). by vm_compute.
  - apply (bool_decide_unpack _). by vm_compute.
Defined.

Section uniform.

Local Open Scope R_scope.

Lemma ln_2_pos : 0 < ln 2.
Proof. rewrite <- ln_1. apply ln_increasing; lra. Qed.

Lemma log2_1 : log2 1 = 0.
Proof. unfold log2. rewrite ln_1. unfold Rdiv. apply Rmult_0_l. Qed.

Lemma log2_inv x : 0 < x -> log2 (/ x) = - log2 x.
Proof.
  intros Hx. unfold log2. rewrite ln_Rinv by done.
  pose proof ln_2_pos. field. lra.
Qed.



Lemma frequency_uniform data (k : nat) c :
  c ∈ data -> (occurrences c data * k = length data)%nat ->
  frequency data c = / INR k.
Proof.
  intros Hc Hk. unfold frequency. rewrite <- Hk, mult_INR.
  apply occurrences_pos in Hc.
  assert (k <> 0%nat) as Hk0.
  { intros ->. pose proof (occurrences_le c data). lia. }
  field. split; apply not_0_INR; lia.
Qed.

Lemma entropy_formula_uniform data (k : nat) :
  data <> [] ->
  length (remove_dups data) = k ->
  (forall c, c ∈ data -> (occurrences c data * k = length data)%nat) ->
  entropy_formula data = log2 (INR k).
Proof.
  intros Hne Hlen Huni. unfold entropy_formula.
  rewrite (sum_R_const _ (/ INR k * log2 (/ INR k))).
  - assert ((0 < k)%nat) as Hk.
    { destruct data as [|c data]; [done|].
      assert (c ∈ remove_dups (c :: data)) as Hc
        by (apply elem_of_remove_dups; left).
      rewrite <- Hlen. destruct (remove_dups (c :: data)); [|cbn; lia].
      by apply not_elem_of_nil in Hc. }
    rewrite Hlen, log2_inv by (apply lt_0_INR; lia).
    field. apply not_0_INR. lia.
  - intros c Hc. apply (proj2 (list_elem_of_In _ _)) in Hc.
    apply (proj1 (elem_of_remove_dups _ _)) in Hc.
    by rewrite (frequency_uniform data k c Hc (Huni c Hc)).
Qed.

End uniform.



(** C3. The subdomain key is empty when the query is its own domain. When
    the domain also occurs earlier in the query, the code removes every
    occurrence of it: at the query [www.example.com.example.com] the derived
    domain is [example.com], removing the trailing [.example.com] leaves
    [www.example.com], and the loop records the subdomain key [www.]. *)
Theorem subdomain_of_repeated_domain :
  (forall query : str,
      domain_of query = query -> subdomain_of query (domain_of query) = []) /\
  let query := lit "www.example.com.example.com" in
  domain_of query = lit "example.com" /\
  query = lit "www.example.com" ++ lit "." ++ domain_of query /\
  subdomain_of query (domain_of query) = lit "www." /\
  lit "www." <> lit "www.example.com" /\
  aggregate [] (data_line query)
  = Ok {[ lit "example.com" :=
            {| count := 1;
               subdomains :=
                 {[ lit "www." :=
                      {| sub_count := 1;
                         entropy := entropy_formula (lit "www.") |} ]} |} ]}.
Proof.
  split.
  - intros query ->. apply subdomain_of_self.
  - intros query. split_and!; [reflexivity | reflexivity | reflexivity | discriminate |].
    by apply (aggregate_single_row_eq _ _ query).
Qed.

Lemma subdomain_of_repeated_domain_witness :
  subdomain_of (lit "example.com") (domain_of (lit "example.com")) = [].
Proof.
  apply (proj1 subdomain_of_repeated_domain (lit "example.com")). reflexivity.
Defined.

(* ----------------------------------------------------------------------- *)
(** ** More on splitting, joining and replacing *)

Section more_strings.

Implicit Types (s p old new : str) (sep : ascii).

Lemma occurrences_absent sep s : sep ∉ s -> occurrences sep s = 0.
Proof.
  intros Hs. destruct (occurrences sep s) eqn:Ho; [done|].
  exfalso. apply Hs, occurrences_pos. lia.
Qed.

Lemma length_split sep s : length (split sep s) = S (occurrences sep s).
Proof.
  induction s as [|c s IH]; [done|]. cbn [split occurrences].
  case_bool_decide as Hc.
  - cbn [length]. rewrite IH. lia.
  - pose proof (split_nonempty sep s) as Hne.
    destruct (split sep s) as [|field fields]; [done|].
    cbn [length] in *. lia.
Qed.

Lemma join_cons sep p (parts : list str) :
  parts <> [] -> join [sep] (p :: parts) = p ++ sep :: join [sep] parts.
Proof. by destruct parts. Qed.

Lemma join_app sep (l1 l2 : list str) :
  l1 <> [] -> l2 <> [] ->
  join [sep] (l1 ++ l2) = join [sep] l1 ++ sep :: join [sep] l2.
Proof.
  intros H1 H2. induction l1 as [|p l1 IH]; [done|].
  destruct l1 as [|p' l1].
  - cbn [app]. by rewrite join_cons.
  - change ((p :: p' :: l1) ++ l2) with (p :: (p' :: l1) ++ l2).
    rewrite join_cons by done. rewrite IH by done.
    rewrite (join_cons sep p (p' :: l1)) by done.
    by rewrite <- app_assoc.
Qed.

Lemma occurrences_join sep (parts : list str) :
  Forall (fun p => sep ∉ p) parts ->
  occurrences sep (join [sep] parts) = length parts - 1.
Proof.
  induction parts as [|p parts IH]; intros Hparts; [done|].
  apply Forall_cons in Hparts as [Hp Hparts].
  destruct parts as [|p' parts].
  - cbn [join length]. by rewrite occurrences_absent.
  - rewrite join_cons by done. rewrite occurrences_app.
    rewrite occurrences_absent by done. cbn [occurrences].
    rewrite bool_decide_eq_true_2 by done. rewrite IH by done.
    cbn [length]. lia.
Qed.

Lemma slice_last_short {A : Type} (n : nat) (l : list A) :
  length l <= n -> slice_last n l = l.
Proof.
  intros Hl. unfold slice_last.
  replace (length l - n) with 0 by lia. done.
Qed.

Lemma slice_last_fields sep s :
  slice_last 2 (split sep s) <> [] /\
  length (slice_last 2 (split sep s)) = Nat.min 2 (S (occurrences sep s)) /\
  Forall (fun field => sep ∉ field) (slice_last 2 (split sep s)).
Proof.
  pose proof (length_split sep s) as Hlen.
  pose proof (split_fields sep s) as Hfields.
  unfold slice_last. split_and!.
  - intros Hnil. apply (f_equal length) in Hnil.
    rewrite length_drop in Hnil. cbn [length] in Hnil. lia.
  - rewrite length_drop. lia.
  - by apply Forall_drop.
Qed.

Lemma domain_of_suffix query :
  exists prefix : str, query = prefix ++ domain_of query.
Proof.
  unfold domain_of, lit. cbn [list_ascii_of_string].
  pose proof (length_split "." query) as Hlen.
  destruct (decide (length (split "." query) <= 2)) as [Hle|Hgt].
  - exists []. by rewrite slice_last_short, join_split.
  - exists (join ["."%char] (take (length (split "." query) - 2) (split "." query))
            ++ ["."%char]).
    rewrite <- app_assoc. cbn [app]. unfold slice_last.
    rewrite <- join_app.
    + by rewrite take_drop, join_split.
    + intros Hnil. apply (f_equal length) in Hnil.
      rewrite length_take in Hnil. cbn [length] in Hnil. lia.
    + intros Hnil. apply (f_equal length) in Hnil.
      rewrite length_drop in Hnil. cbn [length] in Hnil. lia.
Qed.

Lemma domain_of_dots query :
  occurrences "." (domain_of query) = Nat.min 1 (occurrences "." query).
Proof.
  unfold domain_of, lit. cbn [list_ascii_of_string].
  destruct (slice_last_fields "." query) as (_ & Hlen & Hfields).
  rewrite occurrences_join by done. lia.
Qed.

Lemma domain_of_idempotent query : domain_of (domain_of query) = domain_of query.
Proof.
  unfold domain_of at 1 3. unfold lit. cbn [list_ascii_of_string].
  destruct (slice_last_fields "." query) as (Hne & Hlen & Hfields).
  unfold domain_of, lit. cbn [list_ascii_of_string].
  rewrite split_join by done.
  rewrite slice_last_short; [done | lia].
Qed.

Lemma replace_scan_skip_app old new s1 s2 :
  replace_scan old new (length s1) (s1 ++ s2) = replace_scan old new 0 s2.
Proof. induction s1 as [|c s1 IH]; [done | apply IH]. Qed.

Lemma startswith_app s old : startswith s old = true -> exists rest, s = old ++ rest.
Proof.
  revert s. induction old as [|c old IH]; intros s Hs.
  - by exists s.
  - destruct s as [|c' s]; [done|]. cbn [startswith] in Hs.
    apply andb_true_iff in Hs as [Hc Hs]. apply bool_decide_eq_true in Hc as ->.
    destruct (IH s Hs) as [rest ->]. by exists rest.
Qed.

(** [s.replace(old, new)] through [s.find(old)]: up to the first occurrence
    the text is kept, the occurrence becomes [new], and the scan goes on
    after it. *)
Lemma replace_scan_find old new s n :
  old <> [] -> find s old = Some n ->
  replace_scan old new 0 s
  = take n s ++ new ++ replace_scan old new 0 (drop (n + length old) s).
Proof.
  intros Hold. revert n. induction s as [|c s IH]; intros n Hfind.
  - cbn [find] in Hfind. destruct old; [done|]. done.
  - cbn [find] in Hfind. cbn [replace_scan].
    destruct (startswith (c :: s) old) eqn:Hsw.
    + injection Hfind as <-. cbn [take app]. f_equal.
      destruct (startswith_app _ _ Hsw) as [rest Hrest].
      destruct old as [|c' old]; [done|].
      cbn [app] in Hrest. injection Hrest as -> ->.
      replace (length (c' :: old) - 1) with (length old) by (cbn; lia).
      rewrite replace_scan_skip_app.
      change (drop (0 + length (c' :: old)) (c' :: old ++ rest))
        with (drop (length (c' :: old)) ((c' :: old) ++ rest)).
      by rewrite drop_app_length.
    + destruct (find s old) as [m|] eqn:Hm; [|done].
      cbn in Hfind. injection Hfind as <-.
      cbn [take app Nat.add drop]. f_equal. by apply IH.
Qed.

Lemma subdomain_of_first_occurrence query domain subdomain :
  query = subdomain ++ "."%char :: domain ->
  find query domain = Some (length subdomain + 1) ->
  subdomain_of query domain = subdomain.
Proof.
  intros Hq Hfind. unfold subdomain_of, replace.
  destruct domain as [|c domain].
  { destruct query; cbn in Hfind; injection Hfind; lia. }
  assert (c :: domain <> []) as Hne by done.
  rewrite (replace_scan_find _ _ _ _ Hne Hfind).
  rewrite Hq at 1 2.
  replace (subdomain ++ "."%char :: c :: domain)
    with ((subdomain ++ ["."%char]) ++ c :: domain) by (by rewrite <- app_assoc).
  replace (length subdomain + 1) with (length (subdomain ++ ["."%char]))
    by (rewrite length_app; cbn; lia).
  rewrite take_app_length.
  rewrite <- drop_drop, drop_app_length, drop_all. cbn [replace_scan app].
  rewrite app_nil_r. unfold slice_but_last.
  rewrite length_app. cbn [length].
  replace (length subdomain + 1 - 1) with (length subdomain) by lia.
  by rewrite take_app_length.
Qed.

End more_strings.

(* ----------------------------------------------------------------------- *)
(** ** More on [Counter] *)

Section more_counter.

Lemma sum_values_Counter_incr c counts :
  sum_list (values (Counter_incr c counts)) = S (sum_list (values counts)).
Proof.
  unfold values. induction counts as [|[k n] counts IH]; [done|].
  cbn [Counter_incr]. case_bool_decide; cbn [map snd sum_list_with] in *.
  - unfold Datatypes.id. lia.
  - rewrite IH. unfold Datatypes.id. lia.
Qed.

Lemma sum_values_Counter data : sum_list (values (Counter data)) = length data.
Proof.
  induction data as [|x data IH] using rev_ind; [done|].
  rewrite Counter_snoc, sum_values_Counter_incr, IH, length_app. cbn. lia.
Qed.

Lemma entries_get counts :
  NoDup (keys counts) ->
  counts = map (fun k => (k, get k counts)) (keys counts).
Proof.
  unfold keys.
  induction counts as [|[k n] counts IH]; cbn [map fst get]; [done|].
  intros Hnd. apply NoDup_cons in Hnd as [Hk Hnd].
  rewrite bool_decide_eq_true_2 by done. f_equal.
  rewrite IH at 1 by done.
  apply map_ext_in. intros a Ha. apply list_elem_of_In in Ha.
  rewrite bool_decide_eq_false_2; [done|]. by intros ->.
Qed.

Lemma keys_Counter_order data :
  keys (Counter data) = reverse (remove_dups (reverse data)).
Proof.
  induction data as [|x data IH] using rev_ind; [done|].
  rewrite Counter_snoc, keys_Counter_incr, reverse_snoc. cbn [remove_dups].
  destruct (decide_rel elem_of x (reverse data)) as [Hin|Hin].
  - rewrite bool_decide_eq_true_2; [done|].
    apply keys_Counter_elem. by apply elem_of_reverse.
  - rewrite bool_decide_eq_false_2.
    + by rewrite reverse_cons, IH.
    + intros Hx. apply Hin, elem_of_reverse. by apply keys_Counter_elem.
Qed.



Lemma occurrences_two c c' data :
  c <> c' -> occurrences c data + occurrences c' data <= length data.
Proof.
  intros Hne. induction data as [|x data IH]; [done|].
  cbn [occurrences length]. repeat case_bool_decide; subst; try done; lia.
Qed.

Lemma occurrences_all c data :
  (forall x, x ∈ data -> x = c) -> occurrences c data = length data.
Proof.
  induction data as [|x data IH]; intros Hall; [done|].
  cbn [occurrences length]. rewrite bool_decide_eq_true_2.
  - rewrite IH; [done|]. intros y Hy. apply Hall. by right.
  - apply Hall. left.
Qed.

End more_counter.

(* ----------------------------------------------------------------------- *)
(** ** Bounds on the entropy *)

Section entropy_bounds.

Local Open Scope R_scope.

Lemma ln_le_mono x y : 0 < x -> x <= y -> ln x <= ln y.
Proof.
  intros Hx [Hlt | ->]; [|lra]. left. by apply ln_increasing.
Qed.



Lemma sum_R_le {A : Type} (f g : A -> R) (l : list A) :
  (forall x, In x l -> f x <= g x) -> sum_R (map f l) <= sum_R (map g l).
Proof.
  unfold sum_R. induction l as [|x l IH]; intros Hfg; cbn [map foldr]; [lra|].
  pose proof (Hfg x (in_eq _ _)).
  assert (forall y, In y l -> f y <= g y) as Hl by (intros; apply Hfg; by right).
  specialize (IH Hl). lra.
Qed.

Lemma sum_R_pos {A : Type} (f : A -> R) (l : list A) :
  l <> [] -> (forall x, In x l -> 0 < f x) -> 0 < sum_R (map f l).
Proof.
  unfold sum_R. induction l as [|x l IH]; intros Hne Hf; [done|].
  cbn [map foldr]. pose proof (Hf x (in_eq _ _)).
  destruct l as [|y l]; [cbn; lra|].
  assert (0 < foldr Rplus 0 (map f (y :: l))).
  { apply IH; [done|]. intros; apply Hf; by right. }
  lra.
Qed.





Lemma frequency_range data c :
  c ∈ data -> 0 < frequency data c <= 1.
Proof.
  intros Hc. unfold frequency.
  pose proof (proj1 (occurrences_pos c data) Hc) as Hpos.
  pose proof (occurrences_le c data) as Hle.
  assert (0 < INR (occurrences c data)) by (apply lt_0_INR; lia).
  assert (0 < INR (length data)) by (apply lt_0_INR; lia).
  assert (INR (occurrences c data) <= INR (length data)) by (by apply le_INR).
  split; [by apply Rdiv_lt_0_compat|].
  apply (Rmult_le_reg_r (INR (length data))); [done|].
  unfold Rdiv. rewrite Rmult_assoc, Rinv_l by lra. lra.
Qed.

Lemma frequency_lt_1 data c c' :
  c ∈ data -> c' ∈ data -> c <> c' -> frequency data c < 1.
Proof.
  intros Hc Hc' Hne. unfold frequency.
  pose proof (proj1 (occurrences_pos c' data) Hc') as Hpos.
  pose proof (occurrences_two c c' data Hne) as Hle.
  assert (0 < INR (length data)) by (apply lt_0_INR; lia).
  assert (INR (occurrences c data) < INR (length data)) by (apply lt_INR; lia).
  apply (Rmult_lt_reg_r (INR (length data))); [done|].
  unfold Rdiv. rewrite Rmult_assoc, Rinv_l by lra. lra.
Qed.

Lemma log2_nonpos p : 0 < p <= 1 -> log2 p <= 0.
Proof.
  intros [Hp Hp1]. unfold log2. pose proof ln_2_pos.
  pose proof (ln_le_mono p 1 Hp Hp1) as Hln. rewrite ln_1 in Hln.
  apply (Rmult_le_reg_r (ln 2)); [done|].
  unfold Rdiv. rewrite Rmult_assoc, Rinv_l by lra. lra.
Qed.

Lemma log2_neg p : 0 < p < 1 -> log2 p < 0.
Proof.
  intros [Hp Hp1]. unfold log2. pose proof ln_2_pos.
  pose proof (ln_increasing p 1 Hp Hp1) as Hln. rewrite ln_1 in Hln.
  apply (Rmult_lt_reg_r (ln 2)); [done|].
  unfold Rdiv. rewrite Rmult_assoc, Rinv_l by lra. lra.
Qed.

Lemma entropy_formula_nonneg data : 0 <= entropy_formula data.
Proof.
  unfold entropy_formula. rewrite <- sum_R_opp.
  replace 0 with (sum_R (map (fun _ : ascii => 0) (remove_dups data))).
  - apply sum_R_le. intros c Hc.
    apply (proj2 (list_elem_of_In _ _)) in Hc.
    apply (proj1 (elem_of_remove_dups _ _)) in Hc.
    pose proof (frequency_range data c Hc) as Hp.
    pose proof (log2_nonpos _ Hp). nra.
  - rewrite (sum_R_const _ 0); [lra | done].
Qed.




Lemma entropy_formula_pos data :
  (2 <= length (remove_dups data))%nat -> 0 < entropy_formula data.
Proof.
  intros Hk. unfold entropy_formula. rewrite <- sum_R_opp.
  apply sum_R_pos.
  - intros Hnil. rewrite Hnil in Hk. cbn in Hk. lia.
  - intros c Hc.
    apply (proj2 (list_elem_of_In _ _)) in Hc.
    assert (exists c', c' ∈ remove_dups data /\ c <> c') as (c' & Hc' & Hne).
    { pose proof (NoDup_remove_dups data) as Hnd.
      destruct (remove_dups data) as [|a [|b l]]; cbn in Hk; [lia | lia |].
      apply NoDup_cons in Hnd as [Hab _].
      destruct (decide (c = a)) as [->|Hca].
      - exists b. split; [right; left|]. intros ->. apply Hab. left.
      - exists a. split; [left | done]. }
    apply (proj1 (elem_of_remove_dups _ _)) in Hc.
    apply (proj1 (elem_of_remove_dups _ _)) in Hc'.
    pose proof (frequency_range data c Hc) as [Hp _].
    pose proof (frequency_lt_1 data c c' Hc Hc' Hne) as Hp1.
    pose proof (log2_neg (frequency data c) (conj Hp Hp1)). nra.
Qed.

Lemma entropy_formula_one_char data :
  (length (remove_dups data) <= 1)%nat -> entropy_formula data = 0.
Proof.
  intros Hk. destruct data as [|c0 data].
  { unfold entropy_formula, sum_R. cbn. lra. }
  pose proof (elem_of_remove_dups (c0 :: data)) as Hel.
  destruct (remove_dups (c0 :: data)) as [|a [|b l]] eqn:Hd; cbn in Hk; [| |lia].
  { exfalso. eapply not_elem_of_nil, Hel. left. }
  rewrite (entropy_formula_uniform _ 1%nat); [apply log2_1 | done | by rewrite Hd |].
  intros c Hc. rewrite Nat.mul_1_r.
  apply occurrences_all. intros x Hx.
  apply Hel, list_elem_of_singleton in Hx as ->.
  by apply Hel, list_elem_of_singleton in Hc as ->.
Qed.

End entropy_bounds.

(* ----------------------------------------------------------------------- *)
(** ** The dictionary as a count of the lines *)

Section counting.

Implicit Types (queries : Queries) (row query domain subdomain : str).

Lemma step_is_counted safelist queries row :
  step safelist queries row
  = if is_counted safelist row
    then record_query queries (row_domain row) (row_subdomain row)
    else queries.
Proof.
  unfold step, is_counted, row_domain, row_subdomain.
  by destruct (is_skipped row || is_safelisted safelist (query_of row)).
Qed.

Lemma hits_snoc safelist rows row domain :
  hits safelist (rows ++ [row]) domain
  = hits safelist rows domain
    + (if is_counted safelist row && bool_decide (row_domain row = domain)
       then 1 else 0).
Proof.
  unfold hits. rewrite List.filter_app, length_app. cbn [List.filter].
  by destruct (is_counted safelist row && bool_decide (row_domain row = domain)).
Qed.

Lemma sub_hits_snoc safelist rows row domain subdomain :
  sub_hits safelist (rows ++ [row]) domain subdomain
  = sub_hits safelist rows domain subdomain
    + (if is_counted safelist row && bool_decide (row_domain row = domain)
          && bool_decide (row_subdomain row = subdomain)
       then 1 else 0).
Proof.
  unfold sub_hits. rewrite List.filter_app, length_app. cbn [List.filter].
  by destruct (is_counted safelist row && bool_decide (row_domain row = domain)
               && bool_decide (row_subdomain row = subdomain)).
Qed.

Lemma counts_lines_nil safelist : counts_lines safelist [] ∅.
Proof.
  split.
  - intros domain. by rewrite lookup_empty.
  - intros domain subdomain. by rewrite lookup_empty.
Qed.

Lemma lookup_default_subdomains queries domain subdomain :
  subdomains (default new_domain (queries !! domain)) !! subdomain
  = queries !! domain ≫= fun qa => subdomains qa !! subdomain.
Proof.
  destruct (queries !! domain); [done|]. cbn. apply lookup_empty.
Qed.

Lemma counts_lines_snoc safelist rows queries row :
  counts_lines safelist rows queries ->
  counts_lines safelist (rows ++ [row]) (step safelist queries row).
Proof.
  intros [Hdom Hsub]. rewrite step_is_counted.
  destruct (is_counted safelist row) eqn:Hc.
  - split.
    + intros domain. rewrite hits_snoc, Hc. cbn [andb].
      destruct (decide (row_domain row = domain)) as [<-|Hne].
      * rewrite bool_decide_eq_true_2 by done.
        rewrite record_query_lookup. cbn [from_option count].
        destruct (Hdom (row_domain row)) as [_ Hcount].
        assert (count (default new_domain (queries !! row_domain row))
                = hits safelist rows (row_domain row)) as ->
          by (rewrite <- Hcount; by destruct (queries !! row_domain row)).
        split; [|done]. split; [done | lia].
      * rewrite bool_decide_eq_false_2 by done.
        rewrite record_query_lookup_ne by done. rewrite Nat.add_0_r.
        apply Hdom.
    + intros domain subdomain. rewrite sub_hits_snoc, Hc. cbn [andb].
      destruct (decide (row_domain row = domain)) as [<-|Hne].
      * rewrite bool_decide_eq_true_2 by done. cbn [andb].
        rewrite record_query_lookup. cbn [mbind option_bind subdomains].
        destruct (decide (row_subdomain row = subdomain)) as [<-|Hns].
        -- rewrite bool_decide_eq_true_2 by done.
           rewrite lookup_insert_eq, lookup_default_subdomains, Hsub.
           destruct (sub_hits safelist rows (row_domain row) (row_subdomain row))
             as [|n]; cbn [Nat.eqb from_option new_subdomain sub_count entropy];
             unfold Datatypes.id; cbn [sub_count entropy].
           ++ done.
           ++ replace (S n + 1 =? 0) with false
                by (symmetry; apply Nat.eqb_neq; lia).
              done.
        -- rewrite bool_decide_eq_false_2 by done.
           rewrite lookup_insert_ne by done.
           rewrite lookup_default_subdomains, Nat.add_0_r. apply Hsub.
      * rewrite bool_decide_eq_false_2 by done. cbn [andb].
        rewrite record_query_lookup_ne by done. rewrite Nat.add_0_r.
        apply Hsub.
  - split.
    + intros domain. rewrite hits_snoc, Hc. cbn [andb].
      rewrite Nat.add_0_r. apply Hdom.
    + intros domain subdomain. rewrite sub_hits_snoc, Hc. cbn [andb].
      rewrite Nat.add_0_r. apply Hsub.
Qed.

Lemma foldl_step_counts_lines safelist rows :
  counts_lines safelist rows (foldl (step safelist) ∅ rows).
Proof.
  induction rows as [|row rows IH] using rev_ind.
  - apply counts_lines_nil.
  - rewrite foldl_app. cbn [foldl]. by apply counts_lines_snoc.
Qed.

End counting.

(* ----------------------------------------------------------------------- *)
(** ** Totals, permutations of the lines and the two tables *)

Section tables.

Implicit Types (queries : Queries) (row query domain subdomain : str).

Lemma length_filter_perm {A : Type} (f : A -> bool) (l l' : list A) :
  l ≡ₚ l' -> length (List.filter f l) = length (List.filter f l').
Proof.
  induction 1 as [|x l l' _ IH|x y l|l l' l'' _ IH1 _ IH2];
    cbn [List.filter]; [done | | | congruence].
  - destruct (f x); cbn [length]; by rewrite IH.
  - by destruct (f x), (f y).
Qed.

Lemma counts_lines_unique safelist rows rows' queries queries' :
  counts_lines safelist rows queries ->
  counts_lines safelist rows' queries' ->
  (forall domain, hits safelist rows domain = hits safelist rows' domain) ->
  (forall domain subdomain,
      sub_hits safelist rows domain subdomain
      = sub_hits safelist rows' domain subdomain) ->
  queries = queries'.
Proof.
  intros [Hdom Hsub] [Hdom' Hsub'] Hhits Hsubhits.
  apply map_eq. intros domain.
  destruct (Hdom domain) as [Hnone Hcount].
  destruct (Hdom' domain) as [Hnone' Hcount'].
  rewrite <- Hhits in Hnone', Hcount'.
  destruct (queries !! domain) as [[n subs]|] eqn:Hq;
    destruct (queries' !! domain) as [[n' subs']|] eqn:Hq'.
  - cbn in Hcount, Hcount'. f_equal. f_equal; [congruence|].
    apply map_eq. intros subdomain.
    pose proof (Hsub domain subdomain) as H1.
    pose proof (Hsub' domain subdomain) as H2.
    rewrite Hq in H1. rewrite Hq' in H2. cbn in H1, H2.
    rewrite H1, H2. by rewrite Hsubhits.
  - exfalso. assert (hits safelist rows domain = 0) as H0 by (by apply Hnone').
    apply Hnone in H0. done.
  - exfalso. assert (hits safelist rows domain = 0) as H0 by (by apply Hnone).
    apply Hnone' in H0. done.
  - done.
Qed.

Lemma total_count_insert queries domain (qa : QueryAggregate) :
  total_count (<[domain := qa]> queries)
    + from_option count 0 (queries !! domain)
  = count qa + total_count queries.
Proof.
  unfold total_count, items.
  destruct (queries !! domain) as [old|] eqn:Hq; cbn [from_option].
  - rewrite <- insert_delete_eq.
    rewrite map_to_list_insert by apply lookup_delete_eq.
    rewrite <- (map_to_list_delete queries domain old Hq).
    cbn [sum_list_with snd]. lia.
  - rewrite map_to_list_insert by done. cbn [sum_list_with snd]. lia.
Qed.

Lemma total_count_record_query queries domain subdomain :
  total_count (record_query queries domain subdomain) = S (total_count queries).
Proof.
  unfold record_query.
  pose proof (total_count_insert queries domain
    {| count := count (default new_domain (queries !! domain)) + 1;
       subdomains :=
         <[subdomain :=
             {| sub_count :=
                  sub_count
                    (default (new_subdomain subdomain)
                       (subdomains (default new_domain (queries !! domain))
                          !! subdomain)) + 1;
                entropy :=
                  entropy
                    (default (new_subdomain subdomain)
                       (subdomains (default new_domain (queries !! domain))
                          !! subdomain)) |}]>
           (subdomains (default new_domain (queries !! domain))) |}) as H.
  cbn [count] in H. cbv zeta.
  destruct (queries !! domain) as [qa|]; cbn in H |- *; lia.
Qed.

Lemma total_count_foldl safelist rows :
  total_count (foldl (step safelist) ∅ rows)
  = length (List.filter (is_counted safelist) rows).
Proof.
  induction rows as [|row rows IH] using rev_ind; [done|].
  rewrite foldl_app, List.filter_app, length_app. cbn [foldl List.filter].
  rewrite step_is_counted. destruct (is_counted safelist row).
  - rewrite total_count_record_query, IH. cbn. lia.
  - rewrite IH. cbn. lia.
Qed.

Lemma subdomain_total_items (subs : gmap str SubdomainAggregate) :
  subdomain_total subs = sum_list_with (fun x => sub_count (snd x)) (items subs).
Proof.
  unfold subdomain_total, items. rewrite map_fold_foldr.
  induction (map_to_list subs) as [|[s sa] l IH]; [done|].
  cbn [foldr sum_list_with snd]. by rewrite IH.
Qed.

Lemma size_le_subdomain_total (subs : gmap str SubdomainAggregate) :
  (forall subdomain sa, subs !! subdomain = Some sa -> 1 <= sub_count sa) ->
  size subs <= subdomain_total subs.
Proof.
  intros Hpos. rewrite subdomain_total_items. unfold items.
  rewrite <- length_map_to_list.
  assert (forall x, x ∈ map_to_list subs -> 1 <= sub_count (snd x)) as Hl.
  { intros [s sa] Hx. apply elem_of_map_to_list in Hx. by apply (Hpos s). }
  induction (map_to_list subs) as [|x l IH]; [done|].
  cbn [length sum_list_with].
  pose proof (Hl x ltac:(left)).
  assert (length l <= sum_list_with (fun x => sub_count (snd x)) l)
    by (apply IH; intros; apply Hl; by right).
  lia.
Qed.

Lemma sum_list_map {A : Type} (f : A -> nat) (l : list A) :
  sum_list (map f l) = sum_list_with f l.
Proof. induction l as [|x l IH]; [done|]. cbn. by rewrite IH. Qed.

Lemma length_keys_items `{Countable K} {V : Type} (d : gmap K V) :
  length (map fst (items d)) = size d.
Proof. unfold items. by rewrite length_map, length_map_to_list. Qed.

Lemma data_spec queries (r : DomainRow) :
  r ∈ data queries <->
  exists qa, queries !! Domain r = Some qa /\
             Unique_Subdomains r = size (subdomains qa) /\
             Times_looked_up r = count qa.
Proof.
  unfold data. rewrite list_elem_of_In, in_map_iff. split.
  - intros ([d qa] & <- & Hx). apply list_elem_of_In, elem_of_map_to_list in Hx.
    exists qa. cbn [Domain Unique_Subdomains Times_looked_up fst snd].
    by rewrite length_keys_items.
  - intros (qa & Hq & Hu & Ht). exists (Domain r, qa). split.
    + destruct r as [d u t]. cbn in *. rewrite length_keys_items. congruence.
    + by apply list_elem_of_In, elem_of_map_to_list.
Qed.

Lemma data_domains queries : map Domain (data queries) = map fst (items queries).
Proof. unfold data. rewrite map_map. by apply map_ext. Qed.

Lemma data_times queries :
  sum_list (map Times_looked_up (data queries)) = total_count queries.
Proof.
  unfold data, total_count. rewrite map_map, sum_list_map. done.
Qed.

Lemma foldl_append_map {A B : Type} (f : A -> B) (acc : list B) (l : list A) :
  foldl (fun acc x => acc ++ [f x]) acc l = acc ++ map f l.
Proof.
  revert acc. induction l as [|x l IH]; intros acc; cbn [foldl map].
  - by rewrite app_nil_r.
  - rewrite IH. by rewrite <- app_assoc.
Qed.

Lemma subdomain_data_loop (l : list (str * QueryAggregate))
    (acc : list SubdomainRow) :
  foldl (fun acc x =>
           foldl (fun acc y =>
                    acc ++ [{| sub_Domain := fst x;
                               Subdomain := fst y;
                               sub_Times_looked_up := sub_count (snd y);
                               Entropy := entropy (snd y) |}])
             acc (items (subdomains (snd x))))
    acc l
  = acc ++ concat (map (fun x =>
                          map (fun y =>
                                 {| sub_Domain := fst x;
                                    Subdomain := fst y;
                                    sub_Times_looked_up := sub_count (snd y);
                                    Entropy := entropy (snd y) |})
                            (items (subdomains (snd x)))) l).
Proof.
  revert acc. induction l as [|x l IH]; intros acc; cbn [foldl map concat].
  - by rewrite app_nil_r.
  - rewrite IH.
    rewrite (foldl_append_map
               (fun y => {| sub_Domain := fst x;
                            Subdomain := fst y;
                            sub_Times_looked_up := sub_count (snd y);
                            Entropy := entropy (snd y) |})).
    by rewrite <- app_assoc.
Qed.

Lemma subdomain_data_concat queries :
  subdomain_data queries
  = concat (map (fun x =>
                   map (fun y =>
                          {| sub_Domain := fst x;
                             Subdomain := fst y;
                             sub_Times_looked_up := sub_count (snd y);
                             Entropy := entropy (snd y) |})
                     (items (subdomains (snd x))))
              (items queries)).
Proof. unfold subdomain_data. by rewrite subdomain_data_loop. Qed.

Lemma subdomain_data_spec queries (r : SubdomainRow) :
  r ∈ subdomain_data queries <->
  exists qa sa, queries !! sub_Domain r = Some qa /\
                subdomains qa !! Subdomain r = Some sa /\
                sub_Times_looked_up r = sub_count sa /\
                Entropy r = entropy sa.
Proof.
  rewrite subdomain_data_concat, list_elem_of_In, in_concat. split.
  - intros (l & Hl & Hr). apply in_map_iff in Hl as ([d qa] & <- & Hd).
    apply in_map_iff in Hr as ([s sa] & <- & Hs).
    apply list_elem_of_In, elem_of_map_to_list in Hd.
    apply list_elem_of_In, elem_of_map_to_list in Hs.
    by exists qa, sa.
  - intros (qa & sa & Hq & Hs & Ht & He).
    eexists. split.
    + apply in_map_iff. exists (sub_Domain r, qa). split; [reflexivity|].
      by apply list_elem_of_In, elem_of_map_to_list.
    + apply in_map_iff. exists (Subdomain r, sa). split.
      * destruct r. cbn in *. congruence.
      * by apply list_elem_of_In, elem_of_map_to_list.
Qed.

Lemma length_subdomain_data queries :
  length (subdomain_data queries)
  = sum_list (map Unique_Subdomains (data queries)).
Proof.
  rewrite subdomain_data_concat. unfold data. rewrite map_map.
  induction (items queries) as [|x l IH]; [done|].
  cbn [map concat sum_list_with]. rewrite length_app, IH, !length_map.
  cbn [Unique_Subdomains]. done.
Qed.

Lemma subdomain_data_times queries :
  counts_consistent queries ->
  sum_list (map sub_Times_looked_up (subdomain_data queries))
  = total_count queries.
Proof.
  intros Hinv. rewrite subdomain_data_concat. unfold total_count.
  assert (forall x, x ∈ items queries ->
            count (snd x) = subdomain_total (subdomains (snd x))) as Hl.
  { intros [d qa] Hx. apply elem_of_map_to_list in Hx. by apply (Hinv d). }
  rewrite sum_list_map.
  induction (items queries) as [|x l IH]; [done|].
  cbn [map concat]. rewrite sum_list_with_app, IH
    by (intros; apply Hl; by right).
  cbn [sum_list_with]. f_equal.
  rewrite (Hl x) by left. rewrite subdomain_total_items.
  induction (items (subdomains (snd x))) as [|y k IHk]; [done|].
  cbn [map sum_list_with sub_Times_looked_up]. by rewrite IHk.
Qed.

End tables.

(* ----------------------------------------------------------------------- *)
(** ** Further lemmas on the loop *)

Section more_loop.

Implicit Types (queries : Queries) (row query domain subdomain : str).

Lemma split_snoc_sep (sep : ascii) (s : str) :
  split sep (s ++ [sep]) = split sep s ++ [[]].
Proof.
  induction s as [|c s IH].
  - cbn [app split]. by rewrite bool_decide_eq_true_2.
  - cbn [app split]. rewrite IH. case_bool_decide; [done|].
    pose proof (split_nonempty sep s) as Hne.
    by destruct (split sep s).
Qed.


Lemma filter_nil_Forall {A : Type} (f : A -> bool) (l : list A) :
  List.filter f l = [] <-> Forall (fun x => f x = false) l.
Proof.
  induction l as [|x l IH]; cbn [List.filter].
  - split; [constructor | done].
  - rewrite Forall_cons. destruct (f x); [|tauto].
    split; [done | intros [? _]; done].
Qed.

Lemma foldl_step_nothing_counted safelist rows queries :
  Forall (fun row => is_counted safelist row = false) rows ->
  foldl (step safelist) queries rows = queries.
Proof.
  induction 1 as [|row rows Hrow _ IH]; [done|].
  cbn [foldl]. by rewrite step_is_counted, Hrow.
Qed.

Lemma step_safelist_ext safelist safelist' queries row :
  (forall entry, entry ∈ safelist <-> entry ∈ safelist') ->
  step safelist queries row = step safelist' queries row.
Proof.
  intros Hext. unfold step, is_safelisted, contains.
  by rewrite !(bool_decide_ext _ _ (Hext _)).
Qed.

Lemma hits_sub_hits safelist rows domain :
  0 < hits safelist rows domain ->
  exists subdomain, 0 < sub_hits safelist rows domain subdomain.
Proof.
  unfold hits, sub_hits. intros Hpos.
  destruct (List.filter
              (fun row => is_counted safelist row
                          && bool_decide (row_domain row = domain)) rows)
    as [|row l] eqn:Hf; [cbn in Hpos; lia|].
  assert (In row (List.filter
                    (fun row => is_counted safelist row
                                && bool_decide (row_domain row = domain)) rows))
    as Hin by (rewrite Hf; left; done).
  apply filter_In in Hin as [Hin Hrow].
  exists (row_subdomain row).
  assert (In row (List.filter
                    (fun r => is_counted safelist r
                              && bool_decide (row_domain r = domain)
                              && bool_decide (row_subdomain r = row_subdomain row))
                    rows)) as Hin'.
  { apply filter_In. split; [done|]. rewrite Hrow.
    by rewrite bool_decide_eq_true_2. }
  revert Hin'.
  match goal with |- In _ ?f -> _ => generalize f end.
  intros [|x l'] Hin'; [done | cbn; lia].
Qed.

Lemma counts_lines_subdomain safelist rows queries domain qa subdomain sa :
  counts_lines safelist rows queries ->
  queries !! domain = Some qa ->
  subdomains qa !! subdomain = Some sa ->
  sub_count sa = sub_hits safelist rows domain subdomain /\
  0 < sub_hits safelist rows domain subdomain /\
  entropy sa = entropy_formula subdomain.
Proof.
  intros [_ Hsub] Hq Hs. specialize (Hsub domain subdomain).
  rewrite Hq in Hsub. cbn in Hsub. rewrite Hs in Hsub.
  destruct (Nat.eqb_spec (sub_hits safelist rows domain subdomain) 0);
    [done|].
  injection Hsub as ->. cbn. split_and!; [done | lia | done].
Qed.

Lemma counts_lines_domain safelist rows queries domain qa :
  counts_lines safelist rows queries ->
  queries !! domain = Some qa ->
  count qa = hits safelist rows domain /\ 0 < hits safelist rows domain.
Proof.
  intros [Hdom _] Hq. destruct (Hdom domain) as [Hnone Hcount].
  rewrite Hq in Hcount, Hnone. cbn in Hcount. split; [done|].
  destruct (hits safelist rows domain); [|lia].
  pose proof (proj2 Hnone eq_refl) as Hfalse. discriminate Hfalse.
Qed.

Lemma counts_lines_size safelist rows queries domain qa :
  counts_lines safelist rows queries ->
  queries !! domain = Some qa ->
  1 <= size (subdomains qa).
Proof.
  intros Hcl Hq.
  destruct (counts_lines_domain _ _ _ _ _ Hcl Hq) as [_ Hpos].
  destruct (hits_sub_hits _ _ _ Hpos) as [s Hs].
  destruct Hcl as [_ Hsub]. specialize (Hsub domain s).
  rewrite Hq in Hsub. cbn in Hsub.
  destruct (Nat.eqb_spec (sub_hits safelist rows domain s) 0); [lia|].
  destruct (decide (size (subdomains qa) = 0)) as [H0|]; [|lia].
  apply map_size_empty_inv in H0. rewrite H0, lookup_empty in Hsub. done.
Qed.

End more_loop.

(* ----------------------------------------------------------------------- *)
(** ** Further properties of the code *)

(** X1. Splitting loses nothing: [s.split(sep)] always has at least one
    field, no field holds the separator, and joining the fields with the
    separator gives [s] back. This is how [rows] relates to [log] and
    [splitted_line] to [row]. *)
Theorem split_join_round_trip (sep : ascii) (s : str) :
  split sep s <> [] /\
  Forall (fun field => sep ∉ field) (split sep s) /\
  join [sep] (split sep s) = s.
Proof.
  split_and!; [apply split_nonempty | apply split_fields | apply join_split].
Qed.

(** X2. The number of fields of a line is the number of its tabs plus one,
    so a line with fewer than 23 tabs leaves the dictionary as it is. *)
Theorem line_needs_23_tabs :
  (forall row : str, length (split tab row) = S (occurrences tab row)) /\
  (forall (safelist : list str) (queries : Queries) (row : str),
      occurrences tab row < 23 ->
      process_row safelist queries row = Ok queries).
Proof.
  split; [intros row; apply length_split|].
  intros safelist queries row Htabs. rewrite process_row_step. f_equal.
  apply step_dropped. unfold is_skipped. rewrite length_split.
  replace (S (occurrences tab row) <? 24) with true
    by (symmetry; apply Nat.ltb_lt; lia).
  by rewrite orb_true_r.
Qed.

Lemma line_needs_23_tabs_witness :
  process_row safelist ∅ short_line = Ok ∅.
Proof.
  apply (proj2 line_needs_23_tabs safelist ∅ short_line).
  vm_compute. lia.
Defined.

(** X3. The derived domain is a suffix of the query; it holds one dot when
    the query holds a dot and none otherwise; deriving the domain of a
    domain changes nothing. *)
Theorem domain_of_suffix_one_dot (query : str) :
  (exists prefix : str, query = prefix ++ domain_of query) /\
  occurrences "." (domain_of query) = Nat.min 1 (occurrences "." query) /\
  domain_of (domain_of query) = domain_of query.
Proof.
  split_and!;
    [apply domain_of_suffix | apply domain_of_dots | apply domain_of_idempotent].
Qed.

(** X4. When the first place where the derived domain occurs in the query
    is the trailing one, the derived subdomain is the query without the
    trailing dot and domain. *)
Theorem subdomain_of_trailing_domain (query subdomain : str) :
  query = subdomain ++ "."%char :: domain_of query ->
  find query (domain_of query) = Some (length subdomain + 1) ->
  subdomain_of query (domain_of query) = subdomain.
Proof. apply subdomain_of_first_occurrence. Qed.

Lemma subdomain_of_trailing_domain_witness :
  subdomain_of (lit "a.b.example.com") (domain_of (lit "a.b.example.com"))
  = lit "a.b".
Proof.
  apply (subdomain_of_trailing_domain (lit "a.b.example.com") (lit "a.b"));
    reflexivity.
Defined.

(** X5. [Counter(data)] holds the distinct characters of [data] in the
    order in which they first appear, each with the number of times it
    occurs; the values add up to the length of [data]. *)
Theorem Counter_counts (data : str) :
  keys (Counter data) = reverse (remove_dups (reverse data)) /\
  Counter data = map (fun c => (c, occurrences c data)) (keys (Counter data)) /\
  (forall c, c ∈ keys (Counter data) <-> c ∈ data) /\
  sum_list (values (Counter data)) = length data.
Proof.
  split_and!.
  - apply keys_Counter_order.
  - rewrite (entries_get (Counter data)) at 1 by apply keys_Counter_NoDup.
    apply map_ext. intros c. by rewrite get_Counter.
  - intros c. apply keys_Counter_elem.
  - apply sum_values_Counter.
Qed.



(** X7. [shannon_entropy] returns 0 exactly on the strings with at most one
    distinct character. *)
Theorem shannon_entropy_zero_iff (data : str) :
  shannon_entropy data = Ok 0%R <-> length (remove_dups data) <= 1.
Proof.
  rewrite shannon_entropy_formula. split.
  - intros He. injection He as He.
    destruct (decide (length (remove_dups data) <= 1)) as [|Hk]; [done|].
    pose proof (entropy_formula_pos data ltac:(lia)). lra.
  - intros Hk. f_equal. by apply entropy_formula_one_char.
Qed.



(** X9. The result of the loop counts the lines: a domain is a key exactly
    when some counted line has it, its [count] is the number of counted
    lines with that domain, and under it a subdomain is a key exactly when
    some counted line has that domain and subdomain, with the number of
    these lines as its [count]. *)
Theorem result_counts_the_lines (safelist : list str) (rows : list str) :
  exists result : Queries,
    aggregate_rows safelist rows = Ok result /\
    (forall domain,
        result !! domain = None <-> hits safelist rows domain = 0) /\
    (forall domain qa,
        result !! domain = Some qa ->
        count qa = hits safelist rows domain /\
        (forall subdomain,
            subdomains qa !! subdomain = None
            <-> sub_hits safelist rows domain subdomain = 0) /\
        (forall subdomain sa,
            subdomains qa !! subdomain = Some sa ->
            sub_count sa = sub_hits safelist rows domain subdomain)).
Proof.
  exists (foldl (step safelist) ∅ rows).
  split; [apply aggregate_rows_foldl|].
  pose proof (foldl_step_counts_lines safelist rows) as Hcl.
  split; [intros domain; apply Hcl|].
  intros domain qa Hq. split_and!.
  - by apply (counts_lines_domain _ _ _ _ _ Hcl Hq).
  - intros subdomain. destruct Hcl as [_ Hsub].
    specialize (Hsub domain subdomain). rewrite Hq in Hsub. cbn in Hsub.
    rewrite Hsub.
    by destruct (Nat.eqb_spec (sub_hits safelist rows domain subdomain) 0).
  - intros subdomain sa Hs.
    by apply (counts_lines_subdomain _ _ _ _ _ _ _ Hcl Hq Hs).
Qed.

(** X10. The result does not depend on the order of the lines: two lists of
    lines that are permutations of each other give the same keys with the
    same counts and entropies. *)
Theorem aggregate_rows_order_independent
    (safelist : list str) (rows rows' : list str) :
  rows ≡ₚ rows' ->
  aggregate_rows safelist rows = aggregate_rows safelist rows'.
Proof.
  intros Hperm. rewrite !aggregate_rows_foldl. f_equal.
  apply (counts_lines_unique safelist rows rows');
    [apply foldl_step_counts_lines | apply foldl_step_counts_lines | |].
  - intros domain. by apply length_filter_perm.
  - intros domain subdomain. by apply length_filter_perm.
Qed.

Lemma aggregate_rows_order_independent_witness :
  aggregate_rows safelist
    [data_line (lit "x1.evil.io"); data_line (lit "mail.example.com")]
  = aggregate_rows safelist
      [data_line (lit "mail.example.com"); data_line (lit "x1.evil.io")].
Proof.
  apply (aggregate_rows_order_independent safelist
           [data_line (lit "x1.evil.io"); data_line (lit "mail.example.com")]
           [data_line (lit "mail.example.com"); data_line (lit "x1.evil.io")]).
  apply perm_swap.
Defined.

(** X11. The result is empty exactly when no line is counted, that is when
    every line is a comment, too short or safelisted. *)
Theorem result_empty_iff_nothing_counted
    (safelist : list str) (rows : list str) :
  aggregate_rows safelist rows = Ok ∅
  <-> Forall (fun row => is_skipped row = true
                         \/ is_safelisted safelist (query_of row) = true) rows.
Proof.
  assert (Forall (fun row => is_counted safelist row = false) rows
          <-> Forall (fun row => is_skipped row = true
                                 \/ is_safelisted safelist (query_of row) = true)
                rows) as <-.
  { apply Forall_iff. intros row. unfold is_counted.
    rewrite negb_false_iff. apply orb_true_iff. }
  rewrite aggregate_rows_foldl. split.
  - intros Hres. injection Hres as Hres.
    apply filter_nil_Forall. pose proof (total_count_foldl safelist rows) as Ht.
    rewrite Hres in Ht. by destruct (List.filter (is_counted safelist) rows).
  - intros Hall. f_equal. by apply foldl_step_nothing_counted.
Qed.

(** X12. A newline at the end of the log changes nothing. *)
Theorem aggregate_final_newline (safelist : list str) (log : str) :
  aggregate safelist (log ++ [newline]) = aggregate safelist log.
Proof.
  unfold aggregate. rewrite split_snoc_sep, !aggregate_rows_foldl, foldl_app.
  cbn [foldl]. by rewrite step_empty_row.
Qed.

(** X13. The safelist acts as a set: two safelists with the same entries,
    in any order and with any repetitions, give the same result. *)
Theorem aggregate_safelist_as_set (safelist safelist' : list str) (log : str) :
  (forall entry, entry ∈ safelist <-> entry ∈ safelist') ->
  aggregate safelist log = aggregate safelist' log.
Proof.
  intros Hext. unfold aggregate. rewrite !aggregate_rows_foldl. f_equal.
  generalize (∅ : Queries).
  induction (split newline log) as [|row rows IH]; intros queries; [done|].
  cbn [foldl]. by rewrite (step_safelist_ext _ _ _ _ Hext), IH.
Qed.

Lemma aggregate_safelist_as_set_witness :
  aggregate [lit "msn.com"; lit "ubuntu.com"] (data_line (lit "x1.evil.io"))
  = aggregate [lit "ubuntu.com"; lit "msn.com"; lit "ubuntu.com"]
      (data_line (lit "x1.evil.io")).
Proof.
  apply (aggregate_safelist_as_set [lit "msn.com"; lit "ubuntu.com"]
           [lit "ubuntu.com"; lit "msn.com"; lit "ubuntu.com"]).
  intros entry. rewrite !elem_of_cons. tauto.
Defined.

(** X14. The list [data] has one element for each domain key of [queries]
    and no domain twice; the element of a domain holds the number of its
    subdomain keys and its [count]. *)
Theorem data_rows (queries : Queries) :
  NoDup (map Domain (data queries)) /\
  length (data queries) = size queries /\
  forall r : DomainRow,
    r ∈ data queries <->
    exists qa, queries !! Domain r = Some qa /\
               Unique_Subdomains r = size (subdomains qa) /\
               Times_looked_up r = count qa.
Proof.
  split_and!.
  - rewrite data_domains. apply (NoDup_fst_map_to_list queries).
  - unfold data. rewrite length_map. apply length_map_to_list.
  - apply data_spec.
Qed.

(** X15. The list [subdomain_data] has one element for each pair of a
    domain key and a subdomain key under it, with the [count] and the
    [entropy] stored there; its length is the sum of the column
    ["Unique Subdomains"] of [data]. *)
Theorem subdomain_data_rows (queries : Queries) :
  length (subdomain_data queries)
  = sum_list (map Unique_Subdomains (data queries)) /\
  forall r : SubdomainRow,
    r ∈ subdomain_data queries <->
    exists qa sa, queries !! sub_Domain r = Some qa /\
                  subdomains qa !! Subdomain r = Some sa /\
                  sub_Times_looked_up r = sub_count sa /\
                  Entropy r = entropy sa.
Proof.
  split; [apply length_subdomain_data | apply subdomain_data_spec].
Qed.

(** X16. In the first table built from the result of the loop, the column
    ["Times looked up"] of a domain is the number of counted lines with
    that domain, the column ["Unique Subdomains"] lies between 1 and
    ["Times looked up"], and ["Times looked up"] adds up to the number of
    counted lines. *)
Theorem data_of_result (safelist : list str) (rows : list str) :
  exists result : Queries,
    aggregate_rows safelist rows = Ok result /\
    (forall r : DomainRow,
        r ∈ data result ->
        Times_looked_up r = hits safelist rows (Domain r) /\
        1 <= Unique_Subdomains r <= Times_looked_up r) /\
    sum_list (map Times_looked_up (data result))
    = length (List.filter (is_counted safelist) rows).
Proof.
  exists (foldl (step safelist) ∅ rows).
  split; [apply aggregate_rows_foldl|].
  pose proof (foldl_step_counts_lines safelist rows) as Hcl.
  assert (counts_consistent (foldl (step safelist) ∅ rows)) as Hcc.
  { apply (foldl_step_invariant counts_consistent).
    - intros queries row. apply step_counts.
    - intros domain qa Hd. by rewrite lookup_empty in Hd. }
  split.
  - intros r Hr. apply data_spec in Hr as (qa & Hq & Hu & Ht).
    rewrite Hu, Ht.
    destruct (counts_lines_domain _ _ _ _ _ Hcl Hq) as [Hcount _].
    split; [done|]. split; [by apply (counts_lines_size _ _ _ _ _ Hcl Hq)|].
    rewrite (Hcc _ _ Hq). apply size_le_subdomain_total.
    intros subdomain sa Hs.
    destruct (counts_lines_subdomain _ _ _ _ _ _ _ Hcl Hq Hs) as (-> & ? & _).
    lia.
  - by rewrite data_times, total_count_foldl.
Qed.

(** X17. In the second table built from the result of the loop, every row
    holds the number of counted lines with its domain and subdomain, which
    is at least 1, and the value of [shannon_entropy] on its subdomain,
    which is at least 0; the column ["Times looked up"] adds up to the
    number of counted lines, as in the first table. *)
Theorem subdomain_data_of_result (safelist : list str) (rows : list str) :
  exists result : Queries,
    aggregate_rows safelist rows = Ok result /\
    (forall r : SubdomainRow,
        r ∈ subdomain_data result ->
        sub_Times_looked_up r
        = sub_hits safelist rows (sub_Domain r) (Subdomain r) /\
        1 <= sub_Times_looked_up r /\
        shannon_entropy (Subdomain r) = Ok (Entropy r) /\
        (0 <= Entropy r)%R) /\
    sum_list (map sub_Times_looked_up (subdomain_data result))
    = length (List.filter (is_counted safelist) rows).
Proof.
  exists (foldl (step safelist) ∅ rows).
  split; [apply aggregate_rows_foldl|].
  pose proof (foldl_step_counts_lines safelist rows) as Hcl.
  assert (counts_consistent (foldl (step safelist) ∅ rows)) as Hcc.
  { apply (foldl_step_invariant counts_consistent).
    - intros queries row. apply step_counts.
    - intros domain qa Hd. by rewrite lookup_empty in Hd. }
  split.
  - intros r Hr.
    apply subdomain_data_spec in Hr as (qa & sa & Hq & Hs & Ht & He).
    destruct (counts_lines_subdomain _ _ _ _ _ _ _ Hcl Hq Hs)
      as (Hcount & Hpos & Hent).
    rewrite Ht, He, Hent, Hcount. split_and!; [done | lia | |].
    + apply shannon_entropy_formula.
    + apply entropy_formula_nonneg.
  - by rewrite subdomain_data_times, total_count_foldl.
Qed.

Section comparing_runs.

Lemma length_filter_le {A : Type} (f g : A -> bool) (l : list A) :
  (forall x, f x = true -> g x = true) ->
  length (List.filter f l) <= length (List.filter g l).
Proof.
  intros Hfg. induction l as [|x l IH]; [done|]. cbn [List.filter].
  destruct (f x) eqn:Hf.
  - rewrite (Hfg x Hf). cbn [length]. lia.
  - destruct (g x); cbn [length]; lia.
Qed.

Lemma is_counted_anti (safelist safelist' : list str) (row : str) :
  (forall entry, entry ∈ safelist -> entry ∈ safelist') ->
  is_counted safelist' row = true -> is_counted safelist row = true.
Proof.
  intros Hsub. unfold is_counted, is_safelisted, contains.
  rewrite !negb_true_iff, !orb_false_iff, !bool_decide_eq_false.
  intros (Hskip & Hd & Hq). split_and!; [done | |]; intros Hin.
  - by apply Hd, Hsub.
  - by apply Hq, Hsub.
Qed.

Lemma hits_count (safelist : list str) (rows : list str) (domain : str) :
  from_option count 0 (foldl (step safelist) ∅ rows !! domain)
  = hits safelist rows domain.
Proof. apply (foldl_step_counts_lines safelist rows). Qed.

Lemma sub_hits_count (safelist : list str) (rows : list str)
    (domain subdomain : str) :
  from_option sub_count 0
    (foldl (step safelist) ∅ rows !! domain
       ≫= fun qa => subdomains qa !! subdomain)
  = sub_hits safelist rows domain subdomain.
Proof.
  destruct (foldl_step_counts_lines safelist rows) as [_ Hsub].
  rewrite Hsub.
  by destruct (Nat.eqb_spec (sub_hits safelist rows domain subdomain) 0).
Qed.

End comparing_runs.

(** X18. A longer safelist only takes away: when every entry of [safelist]
    is in [safelist'], every domain key of the result with [safelist'] is a
    domain key of the result with [safelist], with a [count] that is not
    larger. *)
Theorem longer_safelist_counts_less
    (safelist safelist' : list str) (rows : list str) :
  (forall entry, entry ∈ safelist -> entry ∈ safelist') ->
  exists result result' : Queries,
    aggregate_rows safelist rows = Ok result /\
    aggregate_rows safelist' rows = Ok result' /\
    forall domain qa',
      result' !! domain = Some qa' ->
      exists qa, result !! domain = Some qa /\ count qa' <= count qa.
Proof.
  intros Hsub.
  exists (foldl (step safelist) ∅ rows), (foldl (step safelist') ∅ rows).
  split; [apply aggregate_rows_foldl|].
  split; [apply aggregate_rows_foldl|].
  intros domain qa' Hq'.
  pose proof (foldl_step_counts_lines safelist rows) as Hcl.
  pose proof (foldl_step_counts_lines safelist' rows) as Hcl'.
  destruct (counts_lines_domain _ _ _ _ _ Hcl' Hq') as [Hcount' Hpos'].
  assert (hits safelist' rows domain <= hits safelist rows domain) as Hle.
  { apply length_filter_le. intros row Hrow.
    apply andb_true_iff in Hrow as [Hc Hd]. rewrite Hd.
    by rewrite (is_counted_anti _ _ _ Hsub Hc). }
  destruct (foldl (step safelist) ∅ rows !! domain) as [qa|] eqn:Hq.
  - exists qa. split; [done|].
    destruct (counts_lines_domain _ _ _ _ _ Hcl Hq) as [Hcount _]. lia.
  - exfalso. destruct Hcl as [Hdom _].
    pose proof (proj1 (proj1 (Hdom domain)) Hq). lia.
Qed.

Lemma longer_safelist_counts_less_witness :
  exists result result' : Queries,
    aggregate_rows [] [data_line (lit "x1.evil.io")] = Ok result /\
    aggregate_rows safelist [data_line (lit "x1.evil.io")] = Ok result' /\
    forall domain qa',
      result' !! domain = Some qa' ->
      exists qa, result !! domain = Some qa /\ count qa' <= count qa.
Proof.
  apply (longer_safelist_counts_less [] safelist [data_line (lit "x1.evil.io")]).
  intros entry Hentry. by apply not_elem_of_nil in Hentry.
Defined.

(** X19. Counts add up over parts of a log: the [count] of a domain, and of
    a subdomain under it, in the result for the lines [rows1 ++ rows2] is
    the sum of the counts in the results for [rows1] and for [rows2], a
    missing key counting as 0. *)
Theorem counts_add_over_parts (safelist : list str) (rows1 rows2 : list str) :
  exists result1 result2 result : Queries,
    aggregate_rows safelist rows1 = Ok result1 /\
    aggregate_rows safelist rows2 = Ok result2 /\
    aggregate_rows safelist (rows1 ++ rows2) = Ok result /\
    (forall domain,
        from_option count 0 (result !! domain)
        = from_option count 0 (result1 !! domain)
          + from_option count 0 (result2 !! domain)) /\
    (forall domain subdomain,
        from_option sub_count 0
          (result !! domain ≫= fun qa => subdomains qa !! subdomain)
        = from_option sub_count 0
            (result1 !! domain ≫= fun qa => subdomains qa !! subdomain)
          + from_option sub_count 0
              (result2 !! domain ≫= fun qa => subdomains qa !! subdomain)).
Proof.
  exists (foldl (step safelist) ∅ rows1), (foldl (step safelist) ∅ rows2),
    (foldl (step safelist) ∅ (rows1 ++ rows2)).
  split_and!; try apply aggregate_rows_foldl.
  - intros domain. rewrite !hits_count. unfold hits.
    by rewrite List.filter_app, length_app.
  - intros domain subdomain. rewrite !sub_hits_count. unfold sub_hits.
    by rewrite List.filter_app, length_app.
Qed.
